(** * Crudinator: a dataclass-driven table mapper (src/crudinator.py)

    The development embeds the statement builders and the six operations of
    [Crudinator] (ensure_table, ensure_index, create, read_generator, update,
    delete) and the constructor check.  Python values are an inductive type,
    a class is known by its identity, a dataclass instance is its class
    together with the ordered list of its fields and their current values,
    result rows are dictionaries, the caller's records live in a store
    indexed by references, and every operation runs in a state-and-exception
    monad over the cursor, the store and the standard output.  The read
    generator is run row by row: what it has yielded and how it ended. *)

From Stdlib Require Import ZArith List String Ascii Bool DecimalString.
From stdpp Require Import gmap strings list.

Local Open Scope Z_scope.

(** ** Python values *)

Inductive value : Type :=
  | VNone
  | VBool (b : bool)
  | VInt (z : Z)
  | VStr (s : string)
  | VBytes (s : string).

(** [a == b] on the values above: [True == 1] and [False == 0] hold, a
    [str] never equals a [bytes], [None] equals only itself. *)
Definition py_eq (a b : value) : bool :=
  match a, b with
  | VNone, VNone => true
  | VBool x, VBool y => Bool.eqb x y
  | VBool x, VInt y => Z.eqb (if x then 1 else 0) y
  | VInt x, VBool y => Z.eqb x (if y then 1 else 0)
  | VInt x, VInt y => Z.eqb x y
  | VStr x, VStr y => String.eqb x y
  | VBytes x, VBytes y => String.eqb x y
  | _, _ => false
  end.

(** [x in l] for a list of values. *)
Definition value_in (x : value) (l : list value) : bool :=
  existsb (py_eq x) l.

(** [x in l] for a list of strings. *)
Definition str_in (x : string) (l : list string) : bool :=
  existsb (String.eqb x) l.

(** [x is None] *)
Definition is_None (x : value) : bool :=
  match x with VNone => true | _ => false end.

(** ** Strings *)

(** [str.lower] on the ASCII range; other bytes are kept. *)
Definition lower_ascii (c : ascii) : ascii :=
  let n := nat_of_ascii c in
  if (Nat.leb 65 n && Nat.leb n 90)%bool then ascii_of_nat (n + 32) else c.

Fixpoint lower (s : string) : string :=
  match s with
  | EmptyString => EmptyString
  | String c s' => String (lower_ascii c) (lower s')
  end.

(** [sep.join(l)] *)
Fixpoint join (sep : string) (l : list string) : string :=
  match l with
  | [] => ""
  | [x] => x
  | x :: xs => x +:+ sep +:+ join sep xs
  end.

(** [''.join(l)] is [join ""]; the direct form is used for it. *)
Definition concat_str (l : list string) : string :=
  fold_right String.append "" l.

(** [str(n)] for an [int]. *)
Definition str_of_int (n : Z) : string :=
  NilZero.string_of_int (Z.to_int n).

(** [[x] * n] *)
Definition repeat_str (x : string) (n : nat) : list string := repeat x n.

(** ** Classes, dataclass instances, arbitrary objects *)

(** A class object.  Python tells classes apart by identity, not by name:
    two classes may carry the same [__name__].  [cls_id] is that identity,
    and the ancestors of the method resolution order are listed by theirs. *)
Record pyclass : Type := mkClass {
  cls_id : nat;                 (* which class object this is *)
  cls_name : string;            (* __name__ *)
  cls_ancestors : list nat      (* the proper ancestors in the MRO *)
}.

(** The class objects the source refers to: [object], [type], [BaseModel]
    (libs.data_models) and the base class [CrudinatorRow] that the source
    declares with the single field [rowid]. *)
Definition object_id : nat := 0.
Definition type_id : nat := 1.
Definition BaseModel_id : nat := 2.
Definition CrudinatorRow_id : nat := 3.

Definition CrudinatorRow : pyclass :=
  mkClass CrudinatorRow_id "CrudinatorRow" [BaseModel_id; object_id].

(** An instance of a dataclass: its class and, in declaration order, every
    field with its current value. *)
Record instance : Type := mkInstance {
  ob_class : pyclass;
  ob_attrs : list (string * value)
}.

Record Field : Type := mkField { name : string }.

(** [dataclasses.fields(row)] *)
Definition fields (row : instance) : list Field :=
  map (fun kv => mkField (fst kv)) (ob_attrs row).

Fixpoint assoc_get (n : string) (l : list (string * value)) : option value :=
  match l with
  | [] => None
  | (k, v) :: t => if String.eqb k n then Some v else assoc_get n t
  end.

Fixpoint assoc_set (n : string) (v : value) (l : list (string * value))
  : list (string * value) :=
  match l with
  | [] => [(n, v)]
  | (k, x) :: t => if String.eqb k n then (k, v) :: t else (k, x) :: assoc_set n v t
  end.

(** [row.__getattribute__(n)].  A dataclass instance has an attribute for
    each of its fields, so the lookup of a field name succeeds
    ([getattr_field] below); [rowid] falls back on the class attribute
    [rowid = None] of [CrudinatorRow]. *)
Definition getattr (row : instance) (n : string) : value :=
  match assoc_get n (ob_attrs row) with
  | Some v => v
  | None => VNone
  end.

(** [row.n = v] *)
Definition setattr (row : instance) (n : string) (v : value) : instance :=
  mkInstance (ob_class row) (assoc_set n v (ob_attrs row)).

(** What [Crudinator(dc)] can be handed: [dc: object]. *)
Inductive pyobject : Type :=
  | ObjInstance (i : instance)      (* an instance of a dataclass *)
  | ObjDataclassType (c : pyclass)  (* a dataclass class object itself *)
  | ObjOther (c : pyclass).         (* an instance of a class that is no dataclass *)

(** [dataclasses.is_dataclass(dc)]: true of dataclass classes and of their
    instances. *)
Definition is_dataclass (dc : pyobject) : bool :=
  match dc with
  | ObjInstance _ => true
  | ObjDataclassType _ => true
  | ObjOther _ => false
  end.

Definition type_type : pyclass := mkClass type_id "type" [object_id].

(** [dc.__class__] *)
Definition class_of (dc : pyobject) : pyclass :=
  match dc with
  | ObjInstance i => ob_class i
  | ObjDataclassType _ => type_type
  | ObjOther c => c
  end.

(** [issubclass(c, CrudinatorRow)]: the class object [CrudinatorRow] is [c]
    itself or one of its ancestors. *)
Definition issubclass_CrudinatorRow (c : pyclass) : bool :=
  existsb (Nat.eqb (cls_id CrudinatorRow)) (cls_id c :: cls_ancestors c).

(** ** Exceptions *)

Record exn : Type := mkExn {
  exn_class : string;
  exn_msg : string
}.

Definition TypeError (msg : string) : exn := mkExn "TypeError" msg.
Definition AttributeError (msg : string) : exn := mkExn "AttributeError" msg.

Inductive result (A : Type) : Type :=
  | Ok (a : A)
  | Raise (e : exn).
Arguments Ok {A} a.
Arguments Raise {A} e.

(** ** The mapper object and its constructor *)

Record Crudinator : Type := mkCrudinator { dc : instance }.

(** [Crudinator.__init__] *)
Definition __init__ (dc : pyobject) : result Crudinator :=
  if negb (is_dataclass dc) then
    Raise (TypeError "Did not pass a dataclass to the Crudinator.")
  else if negb (issubclass_CrudinatorRow (class_of dc)) then
    Raise (TypeError "Crudinator dataclasses must be a subclass of CrudinatorRow.")
  else
    match dc with
    | ObjInstance i => Ok (mkCrudinator i)
    | _ => Raise (TypeError "Crudinator dataclasses must be a subclass of CrudinatorRow.")
    end.

(** [self.dc.__class__.__name__.lower()] *)
Definition table_name (self : Crudinator) : string :=
  lower (cls_name (ob_class (dc self))).

(** ** Statement construction

    Each operation builds the statement text and its bound parameters before
    it touches the cursor.  The loops of the source are folds that carry the
    lists the source appends to. *)

(** [if pk:] for [pk: list[str] = None] *)
Definition truthy_list (pk : option (list string)) : bool :=
  match pk with
  | Some (_ :: _) => true
  | _ => false
  end.

(** [if order_by:] for [order_by: str = None] *)
Definition truthy_str (s : option string) : bool :=
  match s with
  | Some (String _ _) => true
  | _ => false
  end.

Definition opt_list (pk : option (list string)) : list string :=
  match pk with Some l => l | None => [] end.

Definition opt_str (s : option string) : string :=
  match s with Some x => x | None => "None" end.

(** The column loop of [ensure_table]. *)
Definition ensure_table_columns (fs : list Field) : list string :=
  fold_left
    (fun column_names f =>
       if String.eqb (name f) "rowid" then column_names
       else column_names ++ [name f])
    fs [].

(** The statement of [ensure_table]. *)
Definition ensure_table_sql (self : Crudinator) (pk : option (list string)) : string :=
  let table_name := table_name self in
  let column_names := ensure_table_columns (fields (dc self)) in
  let sql := "CREATE TABLE IF NOT EXISTS " +:+ table_name +:+ "("
             +:+ join ", " column_names in
  if truthy_list pk then
    let pk_part := ", PRIMARY KEY (" +:+ join ", " (opt_list pk) +:+ ")" in
    sql +:+ (pk_part +:+ ");")
  else
    sql +:+ ");".

(** The statement of [ensure_index]. *)
Definition ensure_index_sql (self : Crudinator) (name : string)
    (columns : list string) (unique : bool) : string :=
  let sql := if unique then "CREATE UNIQUE INDEX" else "CREATE INDEX" in
  let column_names := join ", " columns in
  sql +:+ (" IF NOT EXISTS " +:+ name +:+ " ON " +:+ table_name self
           +:+ " (" +:+ column_names +:+ ");").

(** The column/value loop of [create]. *)
Definition create_columns_values (row : instance) : list string * list value :=
  let ignore := ["rowid"] in
  fold_left
    (fun '(columns, values) f =>
       if str_in (name f) ignore then (columns, values)
       else (columns ++ [name f], values ++ [getattr row (name f)]))
    (fields row) ([], []).

(** The statement and the parameters of [create]. *)
Definition create_statement (self : Crudinator) (row : instance)
  : string * list value :=
  let '(columns, values) := create_columns_values row in
  let columns_qm := join ", " columns in
  let values_qm := join ", " (repeat_str "?" (length values)) in
  let sql := "INSERT INTO " +:+ table_name self +:+ " (" +:+ columns_qm
             +:+ ") VALUES (" +:+ values_qm +:+ ") RETURNING rowid;" in
  (sql, values).

(** The first loop of [read_generator]: the constrained field names and the
    parameters. *)
Definition read_attention_args (prototype : instance) : list string * list value :=
  let ignore_keys := ["rowid"] in
  let ignore_values := [VStr "any"] in
  fold_left
    (fun '(attention, args) f =>
       let value := getattr prototype (name f) in
       if str_in (name f) ignore_keys then (attention, args)
       else if value_in value ignore_values then (attention, args)
       else (attention ++ [name f], args ++ [getattr prototype (name f)]))
    (fields prototype) ([], []).

(** [enumerate(l)] *)
Definition enumerate {A} (l : list A) : list (nat * A) :=
  combine (seq 0 (length l)) l.

(** The second loop of [read_generator]: one text part per constrained
    field. *)
Definition read_prototype_parts (attention : list string) : list string :=
  fold_left
    (fun prototype_parts '(i, f) =>
       if Nat.eqb i 0 then prototype_parts ++ [" WHERE " +:+ f +:+ "=?"]
       else prototype_parts ++ [" AND " +:+ f +:+ "=?"])
    (enumerate attention) [].

(** The statement and the parameters of [read_generator].  A dataclass
    instance is true in [if prototype:], [None] is not. *)
Definition read_statement (self : Crudinator) (prototype : option instance)
    (limit offset : Z) (order_by : option string) (direction : string)
  : string * list value :=
  let sql := "SELECT rowid, * FROM " +:+ table_name self in
  let '(sql, args) :=
    match prototype with
    | Some prototype =>
        let '(attention, args) := read_attention_args prototype in
        let prototype_parts := read_prototype_parts attention in
        (sql +:+ concat_str prototype_parts, args)
    | None => (sql, [])
    end in
  let sql :=
    if negb (Z.eqb limit 0) then
      sql +:+ (" LIMIT " +:+ str_of_int limit +:+ " OFFSET " +:+ str_of_int offset)
    else sql in
  let sql :=
    if truthy_str order_by then
      sql +:+ (" ORDER BY " +:+ opt_str order_by +:+ " " +:+ direction)
    else sql in
  let sql := sql +:+ ";" in
  (sql, args).

(** The expression/parameter loop of [update]. *)
Definition update_expressions_args (row : instance) : list string * list value :=
  let ignores := ["rowid"] in
  fold_left
    (fun '(expressions, args) f =>
       if str_in (name f) ignores then (expressions, args)
       else (expressions ++ [name f +:+ "=?"], args ++ [getattr row (name f)]))
    (fields row) ([], []).

(** The statement and the parameters of [update] (past the [rowid] guard). *)
Definition update_statement (self : Crudinator) (row : instance)
  : string * list value :=
  let sql := "UPDATE " +:+ table_name self +:+ " SET " in
  let '(expressions, args) := update_expressions_args row in
  let sql := sql +:+ join "," expressions in
  let sql := sql +:+ " WHERE rowid = ?;" in
  let args := args ++ [getattr row "rowid"] in
  (sql, args).

(** The statement and the parameters of [delete] (past the [rowid] guard). *)
Definition delete_statement (self : Crudinator) (row : instance)
  : string * list value :=
  let sql := "DELETE FROM " +:+ table_name self +:+ " WHERE rowid = ?;" in
  let args := [getattr row "rowid"] in
  (sql, args).

(** ** The collaborators: cursor and record model *)

(** What [print] is handed, one list per call. *)
Inductive printed : Type :=
  | PStr (s : string)
  | PArgs (args : list value)
  | PRow (row : option (gmap string value)).

(** The [aiosqlite.Cursor] the caller passes in, with the dictionary row
    factory: a state [C], [execute(sql, args)], [fetchone()] and the
    iteration [async for row in cur].  Each call may raise and may change
    the state.  The iteration delivers its rows one at a time: [cur_rows]
    gives each row together with the state of the cursor once that row is
    delivered, and then how the iteration ends (exhausted, or with an
    exception) and the state it ends in.  The mapper does not touch the
    cursor between two rows, so the cursor alone decides this sequence. *)
Class Cursor (C : Type) : Type := {
  cur_execute : string -> list value -> C -> result unit * C;
  cur_fetchone : C -> result (option (gmap string value)) * C;
  cur_rows : C -> list (gmap string value * C) * (result unit * C)
}.

(** The part of [BaseModel] (libs.data_models) that the mapper calls: the
    constructor without arguments, [cls()], and [dc.parse_from_dict(row)],
    which fills the instance from a result row. *)
Class RecordModel : Type := {
  construct : pyclass -> result instance;
  parse_from_dict : instance -> gmap string value -> result instance
}.

(** ** State and exceptions *)

(** References to the caller's records. *)
Definition ref := nat.

Record world (C : Type) : Type := mkWorld {
  w_cur : C;                      (* the cursor *)
  w_heap : gmap nat instance;     (* the records, by reference *)
  w_out : list (list printed)     (* what was printed, oldest first *)
}.
Arguments mkWorld {C} _ _ _.
Arguments w_cur {C} _.
Arguments w_heap {C} _.
Arguments w_out {C} _.

Definition M (C A : Type) : Type := world C -> result A * world C.

Definition ret {C A} (a : A) : M C A := fun w => (Ok a, w).

Definition bind {C A B} (m : M C A) (k : A -> M C B) : M C B :=
  fun w =>
    match m w with
    | (Ok a, w') => k a w'
    | (Raise e, w') => (Raise e, w')
    end.

Definition raise {C A} (e : exn) : M C A := fun w => (Raise e, w).

Definition lift {C A} (r : result A) : M C A := fun w => (r, w).

Declare Scope py_scope.
Delimit Scope py_scope with py.
Notation "x <- m ;; k" := (bind m (fun x => k))
  (at level 100, m at next level, right associativity) : py_scope.
Notation "m ;;; k" := (bind m (fun _ => k))
  (at level 100, right associativity) : py_scope.

(** A reference that points nowhere has no Python counterpart; the model
    reports it as an exception of its own. *)
Definition DanglingReference : exn := mkExn "SystemError" "dangling reference".

Section Operations.
Context {C : Type} `{Cursor C} `{RecordModel}.

Local Open Scope py_scope.

(** [print(...)] *)
Definition print (l : list printed) : M C unit :=
  fun w => (Ok tt, mkWorld (w_cur w) (w_heap w) (w_out w ++ [l])).

(** [await cur.execute(sql, args)] *)
Definition execute (sql : string) (args : list value) : M C unit :=
  fun w =>
    let '(r, c) := cur_execute sql args (w_cur w) in
    (r, mkWorld c (w_heap w) (w_out w)).

(** [await cur.fetchone()] *)
Definition fetchone : M C (option (gmap string value)) :=
  fun w =>
    let '(r, c) := cur_fetchone (w_cur w) in
    (r, mkWorld c (w_heap w) (w_out w)).

(** Reading the record behind a reference. *)
Definition deref (r : ref) : M C instance :=
  fun w =>
    match w_heap w !! r with
    | Some i => (Ok i, w)
    | None => (Raise DanglingReference, w)
    end.

(** [row.n = v] on the record behind a reference. *)
Definition assign (r : ref) (n : string) (v : value) : M C unit :=
  fun w =>
    match w_heap w !! r with
    | Some i => (Ok tt, mkWorld (w_cur w) (<[r := setattr i n v]> (w_heap w)) (w_out w))
    | None => (Raise DanglingReference, w)
    end.

(** [Crudinator.ensure_table] *)
Definition ensure_table (self : Crudinator) (pk : option (list string)) : M C unit :=
  let sql := ensure_table_sql self pk in
  print [PStr sql] ;;;
  execute sql [].

(** [Crudinator.ensure_index] *)
Definition ensure_index (self : Crudinator) (name : string)
    (columns : list string) (unique : bool) : M C unit :=
  let sql := ensure_index_sql self name columns unique in
  print [PStr sql] ;;;
  execute sql [].

(** [dict.get(key)] *)
Definition dict_get (d : gmap string value) (key : string) : value :=
  match d !! key with
  | Some v => v
  | None => VNone
  end.

(** [Crudinator.create] *)
Definition create (self : Crudinator) (row : ref) : M C unit :=
  r <- deref row ;;
  let '(sql, args) := create_statement self r in
  print [PStr sql; PArgs args] ;;;
  execute sql args ;;;
  rowid_row <- fetchone ;;
  print [PStr "got rowid_row: "; PRow rowid_row] ;;;
  match rowid_row with
  | None => raise (AttributeError "'NoneType' object has no attribute 'get'")
  | Some d =>
      let rowid := dict_get d "rowid" in
      assign row "rowid" rowid
  end.

(** The body of the [async for] loop of [read_generator] before its
    [yield]: one fresh instance of the bound class, filled from the row. *)
Definition hydrate (self : Crudinator) (row : gmap string value) : M C instance :=
  dc <- lift (construct (ob_class (dc self))) ;;
  lift (parse_from_dict dc row).

(** [read_generator] up to its loop: the statement is built, printed and
    executed. *)
Definition read_start (self : Crudinator) (prototype : option ref)
    (limit offset : Z) (order_by : option string) (direction : string)
  : M C unit :=
  p <- match prototype with
       | Some r => i <- deref r ;; ret (Some i)
       | None => ret None
       end ;;
  let '(sql, args) := read_statement self p limit offset order_by direction in
  print [PStr sql; PArgs args] ;;;
  execute sql args.

(** The loop [async for row in cur: dc = cls(); dc.parse_from_dict(row);
    yield dc], row by row: the cursor delivers a row, the record is built
    and loaded from it, and it is yielded before the next row is asked
    for.  An exception in the body ends the generator there, with the rows
    after it not fetched.  The result is what was yielded, in order, and how
    the generator ended. *)
Fixpoint read_loop (self : Crudinator) (rows : list (gmap string value * C))
    (ending : result unit * C) (yielded : list instance) (w : world C)
  : (list instance * result unit) * world C :=
  match rows with
  | [] => ((yielded, fst ending), mkWorld (snd ending) (w_heap w) (w_out w))
  | (row, c) :: rest =>
      match hydrate self row (mkWorld c (w_heap w) (w_out w)) with
      | (Ok dc, w') => read_loop self rest ending (yielded ++ [dc]) w'
      | (Raise e, w') => ((yielded, Raise e), w')
      end
  end.

(** [Crudinator.read_generator], iterated by its consumer until it ends:
    the records it yields, in order, and how it ends ([Ok] when the cursor
    is exhausted, [Raise e] when an exception leaves it). *)
Definition read_generator_yields (self : Crudinator) (prototype : option ref)
    (limit offset : Z) (order_by : option string) (direction : string)
    (w : world C) : (list instance * result unit) * world C :=
  match read_start self prototype limit offset order_by direction w with
  | (Ok _, w1) =>
      let '(rows, ending) := cur_rows (w_cur w1) in
      read_loop self rows ending [] w1
  | (Raise e, w1) => (([], Raise e), w1)
  end.

(** [Crudinator.read_generator], collected by its consumer as
    [[dc async for dc in mapper.read_generator(...)]] does: the list of all
    the records, or the exception that ended the generator.  Such a consumer
    loses the records yielded before the exception; they are in
    [read_generator_yields], and the world is the same in both. *)
Definition read_generator (self : Crudinator) (prototype : option ref)
    (limit offset : Z) (order_by : option string) (direction : string)
  : M C (list instance) :=
  fun w =>
    match read_generator_yields self prototype limit offset order_by direction w with
    | ((yielded, Ok _), w') => (Ok yielded, w')
    | ((_, Raise e), w') => (Raise e, w')
    end.

(** [Crudinator.update] *)
Definition update (self : Crudinator) (row : ref) : M C unit :=
  r <- deref row ;;
  if is_None (getattr r "rowid") then
    print [PStr "Tried to update a row without rowid"]
  else
    let '(sql, args) := update_statement self r in
    execute sql args.

(** [Crudinator.delete] *)
Definition delete (self : Crudinator) (row : ref) : M C unit :=
  r <- deref row ;;
  if is_None (getattr r "rowid") then
    print [PStr "Tried to delete a row without rowid"]
  else
    let '(sql, args) := delete_statement self r in
    execute sql args.

End Operations.

(** The keyword defaults of [read_generator]. *)
Definition default_limit : Z := 0.
Definition default_offset : Z := 0.
Definition default_order_by : option string := None.
Definition default_direction : string := "ASC".

(** ** The field sets in the words of the specification

    The specification speaks of "every non-identifier field" and of "every
    non-identifier field whose value is not the wildcard sentinel", in the
    declared field order.  These definitions say that directly; the loops of
    the source are shown to compute them. *)

Definition field_names (row : instance) : list string :=
  map fst (ob_attrs row).

Definition non_identifier_fields (row : instance) : list string :=
  List.filter (fun n => negb (String.eqb n "rowid")) (field_names row).

Definition is_wildcard (v : value) : bool :=
  match v with
  | VStr s => String.eqb s "any"
  | _ => false
  end.

Definition constrained_fields (prototype : instance) : list string :=
  List.filter (fun n => negb (is_wildcard (getattr prototype n)))
              (non_identifier_fields prototype).

(** The text that a list of constrained fields contributes to a SELECT. *)
Definition where_clause (cols : list string) : string :=
  match cols with
  | [] => ""
  | c :: cs =>
      (" WHERE " +:+ c +:+ "=?")
      +:+ concat_str (map (fun c' => " AND " +:+ c' +:+ "=?") cs)
  end.

(** The SELECT text up to and including its WHERE clause, and the bound
    parameters, for an optional prototype. *)
Definition select_where (self : Crudinator) (prototype : option instance) : string :=
  "SELECT rowid, * FROM " +:+ table_name self
  +:+ match prototype with
      | Some p => where_clause (constrained_fields p)
      | None => ""
      end.

Definition read_args (prototype : option instance) : list value :=
  match prototype with
  | Some p => map (getattr p) (constrained_fields p)
  | None => []
  end.


(** The prototype without one of its fields. *)
Definition drop_field (p : instance) (n : string) : instance :=
  mkInstance (ob_class p)
    (List.filter (fun kv => negb (String.eqb (fst kv) n)) (ob_attrs p)).

(** What [read_generator] does once the statement is built: what it
    yields and how it ends, and the same collected into a list. *)
Definition yields_with {C : Type} `{Cursor C} `{RecordModel}
    (self : Crudinator) (st : string * list value) (w : world C)
  : (list instance * result unit) * world C :=
  let out1 := w_out w ++ [[PStr (fst st); PArgs (snd st)]] in
  match cur_execute (fst st) (snd st) (w_cur w) with
  | (Ok _, c1) =>
      read_loop self (fst (cur_rows c1)) (snd (cur_rows c1)) []
        (mkWorld c1 (w_heap w) out1)
  | (Raise e, c1) => (([], Raise e), mkWorld c1 (w_heap w) out1)
  end.

Definition collect {C : Type} (r : (list instance * result unit) * world C)
  : result (list instance) * world C :=
  match r with
  | ((yielded, Ok _), w') => (Ok yielded, w')
  | ((_, Raise e), w') => (Raise e, w')
  end.

Definition read_with {C : Type} `{Cursor C} `{RecordModel}
    (self : Crudinator) (st : string * list value) : M C (list instance) :=
  fun w => collect (yields_with self st w).

(** An order-by column is given when the argument is a string that is not
    empty. *)
Definition order_by_given (order_by : option string) (col : string) : Prop :=
  order_by = Some col /\ col <> "".

Definition order_by_absent (order_by : option string) : Prop :=
  order_by = None \/ order_by = Some "".

(** The prototype argument of a read and the record it stands for. *)
Definition resolves {C : Type} (w : world C) (prototype : option ref)
    (p : option instance) : Prop :=
  match prototype with
  | None => p = None
  | Some r => exists i, p = Some i /\ w_heap w !! r = Some i
  end.

(** ** A reference cursor

    The engine is outside the mapper; the theorems below hold for every
    [Cursor].  For concrete runs this section gives one: a single table held
    in memory, which accepts the statement shapes of the generated SQL
    surface (a SELECT without LIMIT and ORDER BY), keeps a log of what it
    was asked to execute, and rejects anything else the way the engine
    does, with an [OperationalError]. *)

Fixpoint strip_prefix (p s : string) : option string :=
  match p with
  | EmptyString => Some s
  | String a p' =>
      match s with
      | EmptyString => None
      | String b s' => if Ascii.eqb a b then strip_prefix p' s' else None
      end
  end.

Definition strip_suffix (suf s : string) : option string :=
  match strip_prefix (String.rev suf) (String.rev s) with
  | Some r => Some (String.rev r)
  | None => None
  end.

(** The text before and after the first occurrence of [sep]. *)
Fixpoint cut (sep s : string) {struct s} : option (string * string) :=
  match strip_prefix sep s with
  | Some rest => Some (EmptyString, rest)
  | None =>
      match s with
      | EmptyString => None
      | String c s' =>
          match cut sep s' with
          | Some (a, b) => Some (String c a, b)
          | None => None
          end
      end
  end.

Fixpoint split_on_fuel (fuel : nat) (sep s : string) : list string :=
  match fuel with
  | O => [s]
  | S k =>
      match cut sep s with
      | Some (a, b) => a :: split_on_fuel k sep b
      | None => [s]
      end
  end.

Definition split_on (sep s : string) : list string :=
  split_on_fuel (String.length s) sep s.

Fixpoint strip_all (suf : string) (l : list string) : option (list string) :=
  match l with
  | [] => Some []
  | x :: xs =>
      match strip_suffix suf x, strip_all suf xs with
      | Some y, Some ys => Some (y :: ys)
      | _, _ => None
      end
  end.

Inductive statement : Type :=
  | SCreate
  | SInsert (table : string) (cols : list string) (marks : list string)
  | SSelect (table : string) (conds : list string)
  | SUpdate (table : string) (cols : list string)
  | SDelete (table : string).

Definition parse_insert (s : string) : option statement :=
  match strip_prefix "INSERT INTO " s with
  | Some r1 =>
      match cut " (" r1 with
      | Some (t, r2) =>
          match cut ") VALUES (" r2 with
          | Some (cols, r3) =>
              match strip_suffix ") RETURNING rowid;" r3 with
              | Some marks => Some (SInsert t (split_on ", " cols) (split_on ", " marks))
              | None => None
              end
          | None => None
          end
      | None => None
      end
  | None => None
  end.

Definition parse_select (s : string) : option statement :=
  match strip_prefix "SELECT rowid, * FROM " s with
  | Some r1 =>
      match strip_suffix ";" r1 with
      | Some body =>
          match cut " WHERE " body with
          | Some (t, conds) =>
              match strip_all "=?" (split_on " AND " conds) with
              | Some cs => Some (SSelect t cs)
              | None => None
              end
          | None =>
              match cut " " body with
              | Some _ => None        (* LIMIT and ORDER BY are not covered *)
              | None => Some (SSelect body [])
              end
          end
      | None => None
      end
  | None => None
  end.

Definition parse_update (s : string) : option statement :=
  match strip_prefix "UPDATE " s with
  | Some r1 =>
      match cut " SET " r1 with
      | Some (t, r2) =>
          match strip_suffix " WHERE rowid = ?;" r2 with
          | Some sets =>
              match strip_all "=?" (split_on "," sets) with
              | Some cs => Some (SUpdate t cs)
              | None => None
              end
          | None => None
          end
      | None => None
      end
  | None => None
  end.

Definition parse_delete (s : string) : option statement :=
  match strip_prefix "DELETE FROM " s with
  | Some r1 =>
      match strip_suffix " WHERE rowid = ?;" r1 with
      | Some t => Some (SDelete t)
      | None => None
      end
  | None => None
  end.

Definition parse (s : string) : option statement :=
  match strip_prefix "CREATE " s with
  | Some _ => Some SCreate
  | None =>
      match parse_insert s with
      | Some st => Some st
      | None =>
          match parse_select s with
          | Some st => Some st
          | None =>
              match parse_update s with
              | Some st => Some st
              | None => parse_delete s
              end
          end
      end
  end.

Record table_cursor : Type := mkTable {
  tc_table : string;                            (* the table's name *)
  tc_columns : list string;                     (* its columns *)
  tc_rows : list (Z * list (string * value));   (* rowid and column values *)
  tc_next : Z;                                  (* the next rowid *)
  tc_result : list (gmap string value);         (* rows not yet fetched *)
  tc_log : list (string * list value)           (* statements received *)
}.

Definition OperationalError (msg : string) : exn := mkExn "OperationalError" msg.
Definition ProgrammingError (msg : string) : exn := mkExn "ProgrammingError" msg.

(** [a = b] in a WHERE clause: never true of NULL. *)
Definition sql_eq (a b : value) : bool :=
  match a, b with
  | VNone, _ => false
  | _, VNone => false
  | _, _ => py_eq a b
  end.

Definition row_value (r : Z * list (string * value)) (c : string) : value :=
  if String.eqb c "rowid" then VInt (fst r)
  else match assoc_get c (snd r) with Some v => v | None => VNone end.

Definition row_dict (cols : list string) (r : Z * list (string * value))
  : gmap string value :=
  <["rowid" := VInt (fst r)]>
    (list_to_map (map (fun c => (c, row_value r c)) cols)).

Definition row_matches (conds : list (string * value))
    (r : Z * list (string * value)) : bool :=
  forallb (fun cv => sql_eq (row_value r (fst cv)) (snd cv)) conds.

Definition row_update (sets : list (string * value))
    (r : Z * list (string * value)) : Z * list (string * value) :=
  (fst r, fold_left (fun acc cv => assoc_set (fst cv) (snd cv) acc) sets (snd r)).

Definition known_columns (tc : table_cursor) (cols : list string) : bool :=
  forallb (fun c => str_in c ("rowid" :: tc_columns tc)) cols.

Definition with_rows (tc : table_cursor) (rows : list (Z * list (string * value)))
    (next : Z) (res : list (gmap string value)) (entry : string * list value)
  : table_cursor :=
  mkTable (tc_table tc) (tc_columns tc) rows next res (tc_log tc ++ [entry]).

Definition table_execute (sql : string) (args : list value) (tc : table_cursor)
  : result unit * table_cursor :=
  let logged rows next res := with_rows tc rows next res (sql, args) in
  let failed e := (Raise e, logged (tc_rows tc) (tc_next tc) []) in
  let checked t cols n (k : result unit * table_cursor) :=
    if negb (String.eqb t (tc_table tc)) then
      failed (OperationalError ("no such table: " +:+ t))
    else if negb (known_columns tc cols) then
      failed (OperationalError "no such column")
    else if negb (Nat.eqb n (length args)) then
      failed (ProgrammingError "Incorrect number of bindings supplied.")
    else k in
  match parse sql with
  | None => failed (OperationalError "syntax error")
  | Some SCreate => (Ok tt, logged (tc_rows tc) (tc_next tc) [])
  | Some (SInsert t cols marks) =>
      checked t cols (length marks)
        (if negb (Nat.eqb (length cols) (length marks)) then
           failed (OperationalError "values do not match the columns")
         else
           let r := (tc_next tc, combine cols args) in
           (Ok tt, logged (tc_rows tc ++ [r]) (tc_next tc + 1)
                     [{["rowid" := VInt (tc_next tc)]}]))
  | Some (SSelect t conds) =>
      checked t conds (length conds)
        (let hits := List.filter (row_matches (combine conds args)) (tc_rows tc) in
         (Ok tt, logged (tc_rows tc) (tc_next tc) (map (row_dict (tc_columns tc)) hits)))
  | Some (SUpdate t cols) =>
      checked t cols (S (length cols))
        (let target := List.last args VNone in
         let rows := map (fun r => if sql_eq (VInt (fst r)) target
                                   then row_update (combine cols args) r else r)
                         (tc_rows tc) in
         (Ok tt, logged rows (tc_next tc) []))
  | Some (SDelete t) =>
      checked t [] 1%nat
        (let target := List.last args VNone in
         let rows := List.filter (fun r => negb (sql_eq (VInt (fst r)) target))
                                 (tc_rows tc) in
         (Ok tt, logged rows (tc_next tc) []))
  end.

Definition table_fetchone (tc : table_cursor)
  : result (option (gmap string value)) * table_cursor :=
  match tc_result tc with
  | [] => (Ok None, tc)
  | r :: rest =>
      (Ok (Some r),
       mkTable (tc_table tc) (tc_columns tc) (tc_rows tc) (tc_next tc) rest (tc_log tc))
  end.

(** The iteration over the rows not yet fetched: each row is delivered
    with the rows after it still to fetch. *)
Fixpoint table_deliver (tc : table_cursor) (pending : list (gmap string value))
  : list (gmap string value * table_cursor) :=
  match pending with
  | [] => []
  | r :: rest =>
      (r, mkTable (tc_table tc) (tc_columns tc) (tc_rows tc) (tc_next tc) rest (tc_log tc))
      :: table_deliver tc rest
  end.

Definition table_rows (tc : table_cursor)
  : list (gmap string value * table_cursor) * (result unit * table_cursor) :=
  (table_deliver tc (tc_result tc),
   (Ok tt,
    mkTable (tc_table tc) (tc_columns tc) (tc_rows tc) (tc_next tc) [] (tc_log tc))).

#[export] Instance table_cursor_Cursor : Cursor table_cursor := {
  cur_execute := table_execute;
  cur_fetchone := table_fetchone;
  cur_rows := table_rows
}.

(** Modelled from the spec: the record-model contract of [BaseModel]
    (libs.data_models, not among the sources).  A fresh instance of the
    bound type has every field unset, and hydration populates the fields of
    the instance from a mapping of column name to value; a field the mapping
    does not mention keeps its value. *)
Definition spec_construct (template : instance) (c : pyclass) : result instance :=
  Ok (mkInstance c (map (fun kv => (fst kv, VNone)) (ob_attrs template))).

Definition spec_parse_from_dict (i : instance) (row : gmap string value)
  : result instance :=
  Ok (mkInstance (ob_class i)
        (map (fun kv => (fst kv, match row !! fst kv with
                                 | Some v => v
                                 | None => snd kv
                                 end))
             (ob_attrs i))).

Definition spec_record_model (template : instance) : RecordModel := {|
  construct := spec_construct template;
  parse_from_dict := spec_parse_from_dict
|}.

(** *** The widget table of the specification's scenario *)

Definition Widget : pyclass :=
  mkClass 10 "Widget" [CrudinatorRow_id; BaseModel_id; object_id].

Definition widget (rowid name color : value) : instance :=
  mkInstance Widget [("rowid", rowid); ("name", name); ("color", color)].

Definition widgets : Crudinator := mkCrudinator (widget VNone VNone VNone).

Definition empty_widget_table : table_cursor :=
  mkTable "widget" ["name"; "color"] [] 1 [] [].

Definition start (c : table_cursor) (records : list instance) : world table_cursor :=
  mkWorld c (list_to_map (combine (seq 0 (length records)) records)) [].

(** *** Worlds for the concrete runs *)

(** One record that was never saved, over the empty table. *)
Definition unsaved_bolt : world table_cursor :=
  start empty_widget_table [widget VNone (VStr "bolt") (VStr "red")].

(** The table holds the red bolt as row 1; the caller's record is the blue
    bolt with identifier 1. *)
Definition saved_bolt : world table_cursor :=
  start (mkTable "widget" ["name"; "color"]
           [(1, [("name", VStr "bolt"); ("color", VStr "red")])] 2 [] [])
        [widget (VInt 1) (VStr "bolt") (VStr "blue")].


(** The record model of the widget runs. *)
Definition widget_model : RecordModel := spec_record_model (dc widgets).

(** A prototype with every field wildcarded, one with a single constrained
    field, and one whose [name] is the text "any". *)
Definition all_any : instance := widget (VStr "any") (VStr "any") (VStr "any").
Definition red_ones : instance := widget VNone (VStr "any") (VStr "red").
Definition named_any : instance := widget VNone (VStr "any") (VStr "blue").

(** A cursor that was closed: whatever it is asked, it raises. *)
Inductive closed_cursor : Type := Closed.

Definition closed_error : exn :=
  mkExn "ProgrammingError" "Cannot operate on a closed cursor.".

#[export] Instance closed_cursor_Cursor : Cursor closed_cursor := {
  cur_execute := fun _ _ c => (Raise closed_error, c);
  cur_fetchone := fun c => (Raise closed_error, c);
  cur_rows := fun c => ([], (Raise closed_error, c))
}.

Definition closed_world : world closed_cursor :=
  mkWorld Closed {[ 0%nat := widget (VInt 1) (VStr "bolt") (VStr "red") ]} [].

(** Two records to save, and the prototypes for reading the first of them
    back by its identifier: one with the other fields wildcarded, one with
    the other fields left at their default. *)
Definition two_unsaved : world table_cursor :=
  start empty_widget_table
    [widget VNone (VStr "bolt") (VStr "red");
     widget VNone (VStr "nut") (VStr "blue");
     widget (VInt 1) (VStr "any") (VStr "any");
     widget (VInt 1) VNone VNone].

Definition create_two_then_read (prototype : ref) : M table_cursor (list instance) :=
  (create widgets 0%nat ;;;
   create widgets 1%nat ;;;
   @read_generator table_cursor _ widget_model widgets (Some prototype)
     default_limit default_offset default_order_by default_direction)%py.

(** Objects that are no record model. *)
Definition a_dict : pyobject := ObjOther (mkClass 11 "dict" [object_id]).
Definition a_point : pyobject :=
  ObjInstance (mkInstance (mkClass 12 "Point" [object_id]) [("x", VInt 0); ("y", VInt 0)]).

(** A dataclass of another module that happens to be called CrudinatorRow
    too, with a [rowid] field of its own. *)
Definition namesake : pyobject :=
  ObjInstance (mkInstance (mkClass 13 "CrudinatorRow" [object_id]) [("rowid", VNone)]).

(** ** Placeholders *)

Fixpoint count_char (c : ascii) (s : string) : nat :=
  match s with
  | EmptyString => O
  | String x s' => ((if Ascii.eqb x c then 1 else 0) + count_char c s')%nat
  end.

(** The number of [?] in a statement text. *)
Definition placeholders (s : string) : nat := count_char "?" s.

(** *** More worlds for the concrete runs *)

(** A cursor that accepts every statement, logs it, and answers [fetchone]
    from a script; the script run out, it has no row. *)
Record scripted_cursor : Type := mkScripted {
  sc_answers : list (option (gmap string value));
  sc_log : list (string * list value)
}.

#[export] Instance scripted_cursor_Cursor : Cursor scripted_cursor := {
  cur_execute := fun sql args c =>
    (Ok tt, mkScripted (sc_answers c) (sc_log c ++ [(sql, args)]));
  cur_fetchone := fun c =>
    match sc_answers c with
    | [] => (Ok None, c)
    | a :: rest => (Ok a, mkScripted rest (sc_log c))
    end;
  cur_rows := fun c => ([], (Ok tt, c))
}.

(** A saved bolt facing an engine that hands back no row, and one that hands
    back a row without a [rowid] key. *)
Definition no_row_world : world scripted_cursor :=
  mkWorld (mkScripted [None] [])
          {[ 0%nat := widget (VInt 7) (VStr "bolt") (VStr "red") ]} [].

Definition no_key_world : world scripted_cursor :=
  mkWorld (mkScripted [Some {[ "id" := VInt 1 ]}] [])
          {[ 0%nat := widget (VInt 7) (VStr "bolt") (VStr "red") ]} [].

(** An instance of the base class itself: its only field is [rowid]. *)
Definition bare_row (rowid : value) : instance :=
  mkInstance CrudinatorRow [("rowid", rowid)].

(** A record model whose constructor fails (a field without default). *)
Definition failing_model : RecordModel := {|
  construct := fun _ => Raise (TypeError "missing 1 required positional argument");
  parse_from_dict := fun i _ => Ok i
|}.

(** The table holds a bolt and a nut, both already saved. *)
Definition two_rows_world : world table_cursor :=
  start (mkTable "widget" ["name"; "color"]
           [(1, [("name", VStr "bolt"); ("color", VStr "red")]);
            (2, [("name", VStr "nut"); ("color", VStr "blue")])] 3 [] [])
        [].
(** ** Strings and folds *)

Lemma append_nil_l (a : string) : "" +:+ a = a.
Proof. reflexivity. Qed.

Lemma append_cons (x : ascii) (a b : string) :
  String x a +:+ b = String x (a +:+ b).
Proof. reflexivity. Qed.

Lemma append_assoc (a b c : string) : (a +:+ b) +:+ c = a +:+ (b +:+ c).
Proof.
  induction a as [|x a IH]; [reflexivity|].
  now rewrite !append_cons, IH.
Qed.

Lemma append_nil_r (a : string) : a +:+ "" = a.
Proof.
  induction a as [|x a IH]; [reflexivity|].
  now rewrite append_cons, IH.
Qed.

Lemma fold_left_ext {A B} (f g : A -> B -> A) (l : list B) (a : A) :
  (forall a b, f a b = g a b) -> fold_left f l a = fold_left g l a.
Proof.
  intros E. revert a. induction l as [|x l IH]; intros a; simpl; [reflexivity|].
  now rewrite E, IH.
Qed.

Lemma fold_left_skip {A B} (p : A -> bool) (g : A -> B) (l : list A) (acc : list B) :
  fold_left (fun acc x => if p x then acc else acc ++ [g x]) l acc
  = acc ++ map g (List.filter (fun x => negb (p x)) l).
Proof.
  revert acc. induction l as [|x l IH]; intros acc; simpl.
  - now rewrite app_nil_r.
  - rewrite IH. destruct (p x); simpl; [reflexivity|].
    now rewrite <- app_assoc.
Qed.

Lemma fold_left_skip2 {A B D} (p : A -> bool) (g : A -> B) (h : A -> D)
    (l : list A) (acc1 : list B) (acc2 : list D) :
  fold_left (fun '(a1, a2) x => if p x then (a1, a2) else (a1 ++ [g x], a2 ++ [h x]))
            l (acc1, acc2)
  = (acc1 ++ map g (List.filter (fun x => negb (p x)) l),
     acc2 ++ map h (List.filter (fun x => negb (p x)) l)).
Proof.
  revert acc1 acc2. induction l as [|x l IH]; intros acc1 acc2; simpl.
  - now rewrite !app_nil_r.
  - destruct (p x); simpl; rewrite IH; [reflexivity|].
    now rewrite <- !app_assoc.
Qed.

Lemma filter_map_comm {A B} (f : A -> B) (p : B -> bool) (l : list A) :
  List.filter p (map f l) = map f (List.filter (fun x => p (f x)) l).
Proof.
  induction l as [|x l IH]; simpl; [reflexivity|].
  destruct (p (f x)); simpl; now rewrite IH.
Qed.

Lemma filter_filter {A} (p q : A -> bool) (l : list A) :
  List.filter p (List.filter q l) = List.filter (fun x => q x && p x) l.
Proof.
  induction l as [|x l IH]; simpl; [reflexivity|].
  destruct (q x); simpl; [destruct (p x); simpl|]; now rewrite IH.
Qed.

Lemma str_in_rowid (n : string) : str_in n ["rowid"] = String.eqb n "rowid".
Proof. unfold str_in; simpl. now rewrite orb_false_r. Qed.

Lemma value_in_any (v : value) : value_in v [VStr "any"] = is_wildcard v.
Proof. unfold value_in; simpl. rewrite orb_false_r. now destruct v. Qed.

Lemma is_wildcard_spec (v : value) : is_wildcard v = true <-> v = VStr "any".
Proof.
  destruct v; simpl; try (split; [discriminate | intros E; discriminate E]).
  rewrite String.eqb_eq. split; [now intros -> | now intros [= ->]].
Qed.

Lemma fields_names (row : instance) : map name (fields row) = field_names row.
Proof. unfold fields, field_names. rewrite map_map. reflexivity. Qed.

(** The lookup behind [getattr] finds every field of the instance. *)
Lemma getattr_field (row : instance) (n : string) :
  In n (field_names row) -> exists v, assoc_get n (ob_attrs row) = Some v.
Proof.
  unfold field_names. induction (ob_attrs row) as [|[k x] l IH]; simpl; [tauto|].
  intros [-> | Hin].
  - rewrite String.eqb_refl. eauto.
  - destruct (String.eqb k n); eauto.
Qed.

(** ** The loops compute the field sets *)

Lemma ensure_table_columns_spec (row : instance) :
  ensure_table_columns (fields row) = non_identifier_fields row.
Proof.
  unfold ensure_table_columns, non_identifier_fields.
  rewrite (fold_left_skip (fun f => String.eqb (name f) "rowid") name).
  simpl. rewrite <- fields_names, filter_map_comm. reflexivity.
Qed.

Lemma create_columns_values_spec (row : instance) :
  create_columns_values row
  = (non_identifier_fields row, map (getattr row) (non_identifier_fields row)).
Proof.
  unfold create_columns_values, non_identifier_fields.
  rewrite (fold_left_skip2 (fun f => str_in (name f) ["rowid"]) name
             (fun f => getattr row (name f))).
  rewrite !app_nil_l, <- fields_names, filter_map_comm, map_map.
  f_equal; f_equal; apply filter_ext; intros f; now rewrite str_in_rowid.
Qed.

Lemma update_expressions_args_spec (row : instance) :
  update_expressions_args row
  = (map (fun n => n +:+ "=?") (non_identifier_fields row),
     map (getattr row) (non_identifier_fields row)).
Proof.
  unfold update_expressions_args, non_identifier_fields.
  rewrite (fold_left_skip2 (fun f => str_in (name f) ["rowid"])
             (fun f => name f +:+ "=?") (fun f => getattr row (name f))).
  rewrite !app_nil_l, <- fields_names, filter_map_comm, !map_map.
  f_equal; f_equal; apply filter_ext; intros f; now rewrite str_in_rowid.
Qed.

Lemma read_attention_args_spec (prototype : instance) :
  read_attention_args prototype
  = (constrained_fields prototype,
     map (getattr prototype) (constrained_fields prototype)).
Proof.
  unfold read_attention_args, constrained_fields, non_identifier_fields.
  transitivity
    (fold_left
       (fun '(a1, a2) f =>
          if str_in (name f) ["rowid"] || value_in (getattr prototype (name f)) [VStr "any"]
          then (a1, a2)
          else (a1 ++ [name f], a2 ++ [getattr prototype (name f)]))
       (fields prototype) (@nil string, @nil value)).
  { apply fold_left_ext. intros [a1 a2] f.
    destruct (str_in (name f) ["rowid"]); [reflexivity|].
    destruct (value_in (getattr prototype (name f)) [VStr "any"]); reflexivity. }
  rewrite (fold_left_skip2
             (fun f => str_in (name f) ["rowid"]
                       || value_in (getattr prototype (name f)) [VStr "any"])
             name (fun f => getattr prototype (name f))).
  rewrite !app_nil_l, filter_filter, <- fields_names, filter_map_comm, map_map.
  f_equal; f_equal; apply filter_ext; intros f;
    now rewrite str_in_rowid, value_in_any, negb_orb.
Qed.

Lemma read_prototype_parts_from (k : nat) (cols : list string) (acc : list string) :
  fold_left
    (fun prototype_parts '(i, f) =>
       if Nat.eqb i 0 then prototype_parts ++ [" WHERE " +:+ f +:+ "=?"]
       else prototype_parts ++ [" AND " +:+ f +:+ "=?"])
    (combine (seq (S k) (length cols)) cols) acc
  = acc ++ map (fun c => " AND " +:+ c +:+ "=?") cols.
Proof.
  revert k acc. induction cols as [|c cols IH]; intros k acc.
  - simpl. now rewrite app_nil_r.
  - cbn [length seq combine fold_left]. rewrite IH.
    cbn [Nat.eqb map]. now rewrite <- app_assoc.
Qed.

Lemma read_prototype_parts_spec (cols : list string) :
  concat_str (read_prototype_parts cols) = where_clause cols.
Proof.
  unfold read_prototype_parts, enumerate. destruct cols as [|c cols].
  - reflexivity.
  - cbn [length seq combine fold_left]. rewrite read_prototype_parts_from.
    cbn [Nat.eqb app where_clause concat_str fold_right]. reflexivity.
Qed.

Lemma read_statement_spec (self : Crudinator) (prototype : option instance)
    (limit offset : Z) (order_by : option string) (direction : string) :
  read_statement self prototype limit offset order_by direction
  = (select_where self prototype
     +:+ (if Z.eqb limit 0 then ""
          else " LIMIT " +:+ str_of_int limit +:+ " OFFSET " +:+ str_of_int offset)
     +:+ (if truthy_str order_by
          then " ORDER BY " +:+ opt_str order_by +:+ " " +:+ direction
          else "")
     +:+ ";",
     read_args prototype).
Proof.
  unfold read_statement, select_where, read_args.
  destruct prototype as [p|].
  - rewrite read_attention_args_spec, read_prototype_parts_spec.
    destruct (Z.eqb limit 0), (truthy_str order_by); cbn [negb];
      now rewrite ?append_assoc, ?append_nil_l.
  - destruct (Z.eqb limit 0), (truthy_str order_by); cbn [negb];
      now rewrite ?append_assoc, ?append_nil_l, ?append_nil_r.
Qed.

(** ** Attributes *)

Lemma assoc_get_set_eq (n : string) (v : value) (l : list (string * value)) :
  assoc_get n (assoc_set n v l) = Some v.
Proof.
  induction l as [|[k x] l IH]; simpl.
  - now rewrite String.eqb_refl.
  - destruct (String.eqb k n) eqn:E; simpl; now rewrite E.
Qed.

Lemma assoc_get_set_ne (n m : string) (v : value) (l : list (string * value)) :
  m <> n -> assoc_get m (assoc_set n v l) = assoc_get m l.
Proof.
  intros Hne. induction l as [|[k x] l IH]; simpl.
  - apply String.eqb_neq in Hne. now rewrite String.eqb_sym, Hne.
  - destruct (String.eqb k n) eqn:E; simpl.
    + apply String.eqb_eq in E; subst k.
      assert (String.eqb n m = false) as -> by (apply String.eqb_neq; congruence).
      reflexivity.
    + now rewrite IH.
Qed.

Lemma assoc_set_names (n : string) (v : value) (l : list (string * value)) :
  In n (map fst l) -> map fst (assoc_set n v l) = map fst l.
Proof.
  induction l as [|[k x] l IH]; simpl; [tauto|].
  intros Hin. destruct (String.eqb k n) eqn:E; simpl; [reflexivity|].
  f_equal. apply IH. destruct Hin as [-> | Hin]; [|assumption].
  now rewrite String.eqb_refl in E.
Qed.

Lemma assoc_set_names_filter (n : string) (v : value) (l : list (string * value)) :
  List.filter (fun m => negb (String.eqb m n)) (map fst (assoc_set n v l))
  = List.filter (fun m => negb (String.eqb m n)) (map fst l).
Proof.
  induction l as [|[k x] l IH]; simpl.
  - now rewrite String.eqb_refl.
  - destruct (String.eqb k n) eqn:E; simpl; rewrite E; simpl; [reflexivity|].
    now rewrite IH.
Qed.

Lemma getattr_setattr_eq (row : instance) (n : string) (v : value) :
  getattr (setattr row n v) n = v.
Proof. unfold getattr, setattr; simpl. now rewrite assoc_get_set_eq. Qed.

Lemma getattr_setattr_ne (row : instance) (n m : string) (v : value) :
  m <> n -> getattr (setattr row n v) m = getattr row m.
Proof. intros Hne. unfold getattr, setattr; simpl. now rewrite assoc_get_set_ne. Qed.

Lemma non_identifier_fields_setattr (row : instance) (v : value) :
  non_identifier_fields (setattr row "rowid" v) = non_identifier_fields row.
Proof. apply assoc_set_names_filter. Qed.

Lemma non_identifier_fields_spec (row : instance) (n : string) :
  In n (non_identifier_fields row) <-> In n (field_names row) /\ n <> "rowid".
Proof.
  unfold non_identifier_fields. rewrite filter_In, negb_true_iff, String.eqb_neq.
  reflexivity.
Qed.

Lemma constrained_fields_spec (p : instance) (n : string) :
  In n (constrained_fields p)
  <-> In n (field_names p) /\ n <> "rowid" /\ getattr p n <> VStr "any".
Proof.
  unfold constrained_fields.
  rewrite filter_In, non_identifier_fields_spec, negb_true_iff.
  rewrite <- not_true_iff_false, is_wildcard_spec. tauto.
Qed.

Lemma constrained_fields_setattr (p : instance) (v : value) :
  constrained_fields (setattr p "rowid" v) = constrained_fields p.
Proof.
  unfold constrained_fields. rewrite non_identifier_fields_setattr.
  apply filter_ext_in. intros n Hin.
  apply non_identifier_fields_spec in Hin as [_ Hne].
  now rewrite getattr_setattr_ne.
Qed.

Lemma constrained_fields_all_wildcard (p : instance) :
  (forall n, In n (field_names p) -> n <> "rowid" -> getattr p n = VStr "any") ->
  constrained_fields p = [].
Proof.
  intros Hall. destruct (constrained_fields p) as [|n l] eqn:E; [reflexivity|].
  assert (In n (constrained_fields p)) as Hin by (rewrite E; now left).
  apply constrained_fields_spec in Hin as (Hf & Hne & Hv).
  now specialize (Hall n Hf Hne).
Qed.

(** ** Running the operations *)

Section Running.
Context {C : Type} `{Cursor C}.

Lemma update_unfold (self : Crudinator) (row : ref) (r : instance) (w : world C) :
  w_heap w !! row = Some r ->
  update self row w
  = if is_None (getattr r "rowid")
    then print [PStr "Tried to update a row without rowid"] w
    else execute (fst (update_statement self r)) (snd (update_statement self r)) w.
Proof.
  intros Hr. unfold update, bind, deref. rewrite Hr.
  destruct (is_None (getattr r "rowid")); [reflexivity|].
  now destruct (update_statement self r).
Qed.

Lemma delete_unfold (self : Crudinator) (row : ref) (r : instance) (w : world C) :
  w_heap w !! row = Some r ->
  delete self row w
  = if is_None (getattr r "rowid")
    then print [PStr "Tried to delete a row without rowid"] w
    else execute (fst (delete_statement self r)) (snd (delete_statement self r)) w.
Proof.
  intros Hr. unfold delete, bind, deref. rewrite Hr.
  destruct (is_None (getattr r "rowid")); reflexivity.
Qed.

Lemma is_None_false (v : value) : v <> VNone -> is_None v = false.
Proof. now destruct v. Qed.

End Running.

Section RunningCreate.
Context {C : Type} `{Cursor C}.

(** [create], one case per way it can go. *)
Lemma create_run (self : Crudinator) (row : ref) (r : instance) (w : world C) :
  w_heap w !! row = Some r ->
  let sql := fst (create_statement self r) in
  let args := snd (create_statement self r) in
  let out1 := w_out w ++ [[PStr sql; PArgs args]] in
  create self row w
  = match cur_execute sql args (w_cur w) with
    | (Raise e, c1) => (Raise e, mkWorld c1 (w_heap w) out1)
    | (Ok _, c1) =>
        match cur_fetchone c1 with
        | (Raise e, c2) => (Raise e, mkWorld c2 (w_heap w) out1)
        | (Ok None, c2) =>
            (Raise (AttributeError "'NoneType' object has no attribute 'get'"),
             mkWorld c2 (w_heap w) (out1 ++ [[PStr "got rowid_row: "; PRow None]]))
        | (Ok (Some d), c2) =>
            (Ok tt,
             mkWorld c2 (<[row := setattr r "rowid" (dict_get d "rowid")]> (w_heap w))
                     (out1 ++ [[PStr "got rowid_row: "; PRow (Some d)]]))
        end
    end.
Proof.
  intros Hr sql args out1. subst sql args out1.
  unfold create, bind, deref. rewrite Hr.
  destruct (create_statement self r) as [sql args]. simpl.
  unfold execute; simpl.
  destruct (cur_execute sql args (w_cur w)) as [[[]|e] c1]; simpl; [|reflexivity].
  unfold fetchone; simpl.
  destruct (cur_fetchone c1) as [[[d|]|e] c2]; simpl; try reflexivity.
  unfold assign; simpl. now rewrite Hr.
Qed.

End RunningCreate.

(** ** Reads *)

Lemma filter_sublist {A} (p : A -> bool) (l : list A) : sublist (List.filter p l) l.
Proof.
  induction l as [|x l IH]; simpl; [constructor|].
  destruct (p x); now constructor.
Qed.

Lemma constrained_fields_sublist (p : instance) :
  sublist (constrained_fields p) (field_names p).
Proof.
  unfold constrained_fields, non_identifier_fields.
  etransitivity; apply filter_sublist.
Qed.

Lemma assoc_get_drop (n m : string) (l : list (string * value)) :
  m <> n ->
  assoc_get m (List.filter (fun kv => negb (String.eqb (fst kv) n)) l) = assoc_get m l.
Proof.
  intros Hne. induction l as [|[k x] l IH]; simpl; [reflexivity|].
  destruct (String.eqb k n) eqn:E; simpl.
  - apply String.eqb_eq in E; subst k.
    assert (String.eqb n m = false) as -> by (apply String.eqb_neq; congruence).
    exact IH.
  - now rewrite IH.
Qed.

Lemma getattr_drop_field (p : instance) (n m : string) :
  m <> n -> getattr (drop_field p n) m = getattr p m.
Proof. intros Hne. unfold getattr, drop_field; simpl. now rewrite assoc_get_drop. Qed.

Lemma field_names_drop_field (p : instance) (n : string) :
  field_names (drop_field p n)
  = List.filter (fun m => negb (String.eqb m n)) (field_names p).
Proof. unfold field_names, drop_field; simpl. now rewrite filter_map_comm. Qed.

Lemma constrained_fields_drop_wildcard (p : instance) (n : string) :
  getattr p n = VStr "any" ->
  constrained_fields (drop_field p n) = constrained_fields p.
Proof.
  intros Hany. unfold constrained_fields, non_identifier_fields.
  rewrite field_names_drop_field, !filter_filter.
  apply filter_ext. intros m.
  destruct (String.eqb_spec m n) as [->|Hne]; simpl.
  - rewrite Hany. simpl. now rewrite andb_false_r.
  - now rewrite getattr_drop_field.
Qed.

Section RunningRead.
Context {C : Type} `{Cursor C} `{RecordModel}.

Lemma read_generator_yields_none (self : Crudinator) (limit offset : Z)
    (order_by : option string) (direction : string) (w : world C) :
  read_generator_yields self None limit offset order_by direction w
  = yields_with self (read_statement self None limit offset order_by direction) w.
Proof.
  unfold read_generator_yields, yields_with, read_start, bind, ret, print, execute.
  destruct (read_statement self None limit offset order_by direction) as [sql args].
  cbn [fst snd w_cur w_heap w_out].
  destruct (cur_execute sql args (w_cur w)) as [[[]|e] c1]; [|reflexivity].
  cbn [w_cur]. now destruct (cur_rows c1).
Qed.

Lemma read_generator_yields_some (self : Crudinator) (r : ref) (p : instance)
    (limit offset : Z) (order_by : option string) (direction : string) (w : world C) :
  w_heap w !! r = Some p ->
  read_generator_yields self (Some r) limit offset order_by direction w
  = yields_with self (read_statement self (Some p) limit offset order_by direction) w.
Proof.
  intros Hr.
  unfold read_generator_yields, yields_with, read_start, bind, deref, ret, print, execute.
  rewrite Hr.
  destruct (read_statement self (Some p) limit offset order_by direction) as [sql args].
  cbn [fst snd w_cur w_heap w_out].
  destruct (cur_execute sql args (w_cur w)) as [[[]|e] c1]; [|reflexivity].
  cbn [w_cur]. now destruct (cur_rows c1).
Qed.

Lemma read_generator_collects (self : Crudinator) (prototype : option ref)
    (limit offset : Z) (order_by : option string) (direction : string) (w : world C) :
  read_generator self prototype limit offset order_by direction w
  = collect (read_generator_yields self prototype limit offset order_by direction w).
Proof.
  unfold read_generator, collect.
  now destruct (read_generator_yields self prototype limit offset order_by direction w)
    as [[yielded [[]|e]] w'].
Qed.

Lemma read_generator_none (self : Crudinator) (limit offset : Z)
    (order_by : option string) (direction : string) (w : world C) :
  read_generator self None limit offset order_by direction w
  = read_with self (read_statement self None limit offset order_by direction) w.
Proof.
  rewrite read_generator_collects, read_generator_yields_none. reflexivity.
Qed.

Lemma read_generator_some (self : Crudinator) (r : ref) (p : instance)
    (limit offset : Z) (order_by : option string) (direction : string) (w : world C) :
  w_heap w !! r = Some p ->
  read_generator self (Some r) limit offset order_by direction w
  = read_with self (read_statement self (Some p) limit offset order_by direction) w.
Proof.
  intros Hr. rewrite read_generator_collects, (read_generator_yields_some _ _ p) by exact Hr.
  reflexivity.
Qed.

(** [read_with], one case per way the [execute] can go. *)
Lemma read_with_run (self : Crudinator) (st : string * list value) (w : world C) :
  read_with self st w
  = let out1 := w_out w ++ [[PStr (fst st); PArgs (snd st)]] in
    match cur_execute (fst st) (snd st) (w_cur w) with
    | (Raise e, c1) => (Raise e, mkWorld c1 (w_heap w) out1)
    | (Ok _, c1) =>
        collect (read_loop self (fst (cur_rows c1)) (snd (cur_rows c1)) []
                   (mkWorld c1 (w_heap w) out1))
    end.
Proof.
  unfold read_with, yields_with. cbv zeta.
  now destruct (cur_execute (fst st) (snd st) (w_cur w)) as [[[]|e] c1].
Qed.

(** The body of the loop does not depend on the world and leaves it as it
    is. *)
Lemma hydrate_run (self : Crudinator) (row : gmap string value) (w : world C) :
  hydrate self row w
  = (match construct (ob_class (dc self)) with
     | Ok i0 => parse_from_dict i0 row
     | Raise e => Raise e
     end, w).
Proof.
  unfold hydrate, bind, lift.
  destruct (construct (ob_class (dc self))) as [i0|e]; reflexivity.
Qed.

End RunningRead.

Section Loop.
Context {C : Type} `{Cursor C} `{RecordModel}.

Lemma read_loop_all_load (self : Crudinator) (i0 : instance)
    (rows : list (gmap string value * C)) (ending : result unit * C)
    (recs yielded : list instance) (w : world C) :
  construct (ob_class (dc self)) = Ok i0 ->
  Forall2 (fun rc rec => parse_from_dict i0 (fst rc) = Ok rec) rows recs ->
  read_loop self rows ending yielded w
  = ((yielded ++ recs, fst ending), mkWorld (snd ending) (w_heap w) (w_out w)).
Proof.
  intros Hc Hall. revert yielded w.
  induction Hall as [|[row c] rec rows recs Hrow Hall IH]; intros yielded w.
  - cbn [read_loop]. now rewrite app_nil_r.
  - cbn [read_loop]. rewrite hydrate_run, Hc. cbn [fst] in Hrow. rewrite Hrow.
    rewrite IH. cbn [w_heap w_out]. now rewrite <- app_assoc.
Qed.

Lemma read_loop_row_fails (self : Crudinator) (i0 : instance)
    (pre post : list (gmap string value * C)) (row : gmap string value) (c : C)
    (ending : result unit * C) (recs yielded : list instance) (e : exn) (w : world C) :
  construct (ob_class (dc self)) = Ok i0 ->
  Forall2 (fun rc rec => parse_from_dict i0 (fst rc) = Ok rec) pre recs ->
  parse_from_dict i0 row = Raise e ->
  read_loop self (pre ++ (row, c) :: post) ending yielded w
  = ((yielded ++ recs, Raise e), mkWorld c (w_heap w) (w_out w)).
Proof.
  intros Hc Hall Hrow. revert yielded w.
  induction Hall as [|[row' c'] rec pre recs Hrow' Hall IH]; intros yielded w.
  - cbn [app read_loop]. rewrite hydrate_run, Hc, Hrow. now rewrite app_nil_r.
  - cbn [app read_loop]. rewrite hydrate_run, Hc. cbn [fst] in Hrow'. rewrite Hrow'.
    rewrite IH. cbn [w_heap w_out]. now rewrite <- app_assoc.
Qed.

Lemma read_loop_constructor_fails (self : Crudinator)
    (post : list (gmap string value * C)) (row : gmap string value) (c : C)
    (ending : result unit * C) (yielded : list instance) (e : exn) (w : world C) :
  construct (ob_class (dc self)) = Raise e ->
  read_loop self ((row, c) :: post) ending yielded w
  = ((yielded, Raise e), mkWorld c (w_heap w) (w_out w)).
Proof. intros Hc. cbn [read_loop]. now rewrite hydrate_run, Hc. Qed.

Lemma read_loop_keeps_heap (self : Crudinator) (rows : list (gmap string value * C))
    (ending : result unit * C) (yielded : list instance) (w : world C) :
  w_heap (snd (read_loop self rows ending yielded w)) = w_heap w.
Proof.
  revert yielded w. induction rows as [|[row c] rows IH]; intros yielded w.
  - reflexivity.
  - cbn [read_loop]. rewrite hydrate_run.
    destruct (match construct (ob_class (dc self)) with
              | Ok i0 => parse_from_dict i0 row
              | Raise e => Raise e
              end) as [rec|e]; [|reflexivity].
    now rewrite IH.
Qed.

Lemma collect_snd (r : (list instance * result unit) * world C) :
  snd (collect r) = snd r.
Proof. now destruct r as [[yielded [[]|e]] w]. Qed.

(** A read, once its prototype is looked up. *)
Lemma read_generator_yields_resolved (self : Crudinator) (prototype : option ref)
    (p : option instance) (limit offset : Z) (order_by : option string)
    (direction : string) (w : world C) :
  resolves w prototype p ->
  read_generator_yields self prototype limit offset order_by direction w
  = yields_with self (read_statement self p limit offset order_by direction) w.
Proof.
  destruct prototype as [r|]; simpl.
  - intros (i & -> & Hr). now apply read_generator_yields_some.
  - intros ->. apply read_generator_yields_none.
Qed.

End Loop.

(** * The claims *)

(** ** Update and delete without an identifier *)

(** C4: for every record whose [rowid] is [None], [update] and [delete]
    return without raising, leave the cursor in the state they found it (no
    statement is executed, the table is untouched) and leave the store of
    records as it was; all they do is print the report. *)
Theorem update_delete_unset_rowid_noop {C : Type} `{Cursor C}
    (self : Crudinator) (row : ref) (r : instance) (w : world C) :
  w_heap w !! row = Some r ->
  getattr r "rowid" = VNone ->
  update self row w
    = (Ok tt, mkWorld (w_cur w) (w_heap w)
                (w_out w ++ [[PStr "Tried to update a row without rowid"]]))
  /\ delete self row w
    = (Ok tt, mkWorld (w_cur w) (w_heap w)
                (w_out w ++ [[PStr "Tried to delete a row without rowid"]])).
Proof.
  intros Hr Hid. split.
  - rewrite (update_unfold self row r w Hr), Hid. reflexivity.
  - rewrite (delete_unfold self row r w Hr), Hid. reflexivity.
Qed.

Lemma update_delete_unset_rowid_noop_witness :
  tc_log (w_cur (snd (update widgets 0%nat unsaved_bolt))) = []
  /\ tc_log (w_cur (snd (delete widgets 0%nat unsaved_bolt))) = []
  /\ fst (update widgets 0%nat unsaved_bolt) = Ok tt
  /\ fst (delete widgets 0%nat unsaved_bolt) = Ok tt.
Proof.
  destruct (update_delete_unset_rowid_noop widgets 0%nat
              (widget VNone (VStr "bolt") (VStr "red")) unsaved_bolt)
    as [Hu Hd]; [reflexivity | reflexivity |].
  rewrite Hu, Hd. repeat split.
Defined.

(** ** Update with an identifier *)

(** C7: for every record with a set identifier, [update] executes one
    statement, [UPDATE <table> SET c1=?,c2=?,... WHERE rowid = ?;], whose SET
    clause has one assignment for every non-identifier field, in declared
    order, whose parameters are the record's current values of those fields
    followed by the identifier as the last parameter; no field is left out
    of the SET clause. *)
Theorem update_full_row_replace {C : Type} `{Cursor C}
    (self : Crudinator) (row : ref) (r : instance) (w : world C) :
  w_heap w !! row = Some r ->
  getattr r "rowid" <> VNone ->
  let cols := non_identifier_fields r in
  let sql := "UPDATE " +:+ table_name self +:+ " SET "
             +:+ join "," (map (fun c => c +:+ "=?") cols)
             +:+ " WHERE rowid = ?;" in
  let args := map (getattr r) cols ++ [getattr r "rowid"] in
  update_statement self r = (sql, args)
  /\ update self row w
     = (fst (cur_execute sql args (w_cur w)),
        mkWorld (snd (cur_execute sql args (w_cur w))) (w_heap w) (w_out w))
  /\ (forall n, In n cols <-> In n (field_names r) /\ n <> "rowid")
  /\ List.last args VNone = getattr r "rowid"
  /\ length args = S (length cols).
Proof.
  intros Hr Hid cols sql args.
  assert (update_statement self r = (sql, args)) as Hst.
  { unfold update_statement. rewrite update_expressions_args_spec.
    subst sql args cols. now rewrite !append_assoc. }
  split; [exact Hst|]. split; [|split; [|split]].
  - rewrite (update_unfold self row r w Hr), (is_None_false _ Hid), Hst.
    unfold execute; simpl. now destruct (cur_execute sql args (w_cur w)).
  - intros n. apply non_identifier_fields_spec.
  - subst args. apply last_last.
  - subst args. rewrite length_app, length_map. simpl. lia.
Qed.

Lemma update_full_row_replace_witness :
  tc_log (w_cur (snd (update widgets 0%nat saved_bolt)))
    = [("UPDATE widget SET name=?,color=? WHERE rowid = ?;",
        [VStr "bolt"; VStr "blue"; VInt 1])]
  /\ tc_rows (w_cur (snd (update widgets 0%nat saved_bolt)))
    = [(1, [("name", VStr "bolt"); ("color", VStr "blue")])].
Proof.
  destruct (update_full_row_replace widgets 0%nat
              (widget (VInt 1) (VStr "bolt") (VStr "blue")) saved_bolt)
    as (_ & Hu & _); [reflexivity | discriminate |].
  rewrite Hu. split; reflexivity.
Defined.

(** ** Create *)

(** C6: when the insert succeeds and the cursor hands back a row, [create]
    stores the row's [rowid] into the caller's record and changes nothing
    else: every other attribute of the record keeps its value, its class and
    its field list are the same, and no other record of the store is
    touched.  When the insert is rejected, [create] raises and the store is
    exactly as it was, the identifier included; and so it is whenever
    [create] raises at all. *)
Theorem create_writes_rowid_only {C : Type} `{Cursor C}
    (self : Crudinator) (row : ref) (r : instance) (w : world C) :
  w_heap w !! row = Some r ->
  let sql := fst (create_statement self r) in
  let args := snd (create_statement self r) in
  (forall c1 c2 d,
      cur_execute sql args (w_cur w) = (Ok tt, c1) ->
      cur_fetchone c1 = (Ok (Some d), c2) ->
      let r' := setattr r "rowid" (dict_get d "rowid") in
      fst (create self row w) = Ok tt
      /\ w_cur (snd (create self row w)) = c2
      /\ w_heap (snd (create self row w)) = <[row := r']> (w_heap w)
      /\ getattr r' "rowid" = dict_get d "rowid"
      /\ (forall n, n <> "rowid" ->
                    assoc_get n (ob_attrs r') = assoc_get n (ob_attrs r))
      /\ ob_class r' = ob_class r
      /\ (In "rowid" (field_names r) -> field_names r' = field_names r)
      /\ (forall other, other <> row ->
                        w_heap (snd (create self row w)) !! other = w_heap w !! other))
  /\ (forall e c1,
      cur_execute sql args (w_cur w) = (Raise e, c1) ->
      fst (create self row w) = Raise e
      /\ w_heap (snd (create self row w)) = w_heap w)
  /\ (forall e,
      fst (create self row w) = Raise e ->
      w_heap (snd (create self row w)) = w_heap w).
Proof.
  intros Hr sql args. pose proof (create_run self row r w Hr) as Hrun.
  cbv zeta in Hrun. fold sql args in Hrun.
  split; [|split].
  - intros c1 c2 d He Hf r'. rewrite Hrun, He, Hf. simpl.
    repeat split.
    + apply getattr_setattr_eq.
    + intros n Hn. now apply assoc_get_set_ne.
    + apply assoc_set_names.
    + intros other Hne. now rewrite lookup_insert_ne.
  - intros e c1 He. rewrite Hrun, He. now split.
  - intros e. rewrite Hrun.
    destruct (cur_execute sql args (w_cur w)) as [[[]|e1] c1]; [|reflexivity].
    destruct (cur_fetchone c1) as [[[d|]|e2] c2]; simpl; try reflexivity.
    discriminate.
Qed.

Lemma create_writes_rowid_only_witness :
  fst (create widgets 0%nat unsaved_bolt) = Ok tt
  /\ w_heap (snd (create widgets 0%nat unsaved_bolt)) !! 0%nat
     = Some (widget (VInt 1) (VStr "bolt") (VStr "red")).
Proof.
  destruct (create_writes_rowid_only widgets 0%nat
              (widget VNone (VStr "bolt") (VStr "red")) unsaved_bolt)
    as (Hok & _ & _); [reflexivity|].
  destruct (Hok (snd (table_execute
                        "INSERT INTO widget (name, color) VALUES (?, ?) RETURNING rowid;"
                        [VStr "bolt"; VStr "red"] empty_widget_table))
                (mkTable "widget" ["name"; "color"]
                   [(1, [("name", VStr "bolt"); ("color", VStr "red")])] 2 []
                   [("INSERT INTO widget (name, color) VALUES (?, ?) RETURNING rowid;",
                     [VStr "bolt"; VStr "red"])])
                {["rowid" := VInt 1]})
    as (H1 & _ & H3 & _); [reflexivity | reflexivity |].
  split; [exact H1|]. rewrite H3. reflexivity.
Defined.

(** ** The SELECT of a read *)

(** C5: for every prototype the SELECT has one predicate [col=?] and one
    bound parameter for exactly the fields that are not [rowid] and whose
    value is not the sentinel ['any'], in the declared field order: the
    parameters are the prototype's values of those fields, the predicates
    are joined by WHERE and AND, and they sit between the table name and
    whatever follows (the same tail as without a prototype).  When every
    field other than [rowid] holds the sentinel there is no WHERE clause and
    no parameter: the statement, and with it the whole read, is the one
    issued without a prototype, which selects every row. *)
Theorem read_query_construction {C : Type} `{Cursor C} `{RecordModel}
    (self : Crudinator) (prototype : instance) :
  let cols := constrained_fields prototype in
  (forall n, In n cols
             <-> In n (field_names prototype) /\ n <> "rowid"
                 /\ getattr prototype n <> VStr "any")
  /\ sublist cols (field_names prototype)
  /\ read_statement self (Some prototype) default_limit default_offset
       default_order_by default_direction
     = ("SELECT rowid, * FROM " +:+ table_name self +:+ where_clause cols +:+ ";",
        map (getattr prototype) cols)
  /\ (forall limit offset order_by direction,
        exists tail,
          read_statement self None limit offset order_by direction
          = ("SELECT rowid, * FROM " +:+ table_name self +:+ tail, [])
          /\ read_statement self (Some prototype) limit offset order_by direction
             = ("SELECT rowid, * FROM " +:+ table_name self +:+ where_clause cols +:+ tail,
                map (getattr prototype) cols))
  /\ ((forall n, In n (field_names prototype) -> n <> "rowid" ->
                 getattr prototype n = VStr "any") ->
      cols = []
      /\ forall limit offset order_by direction,
           read_statement self (Some prototype) limit offset order_by direction
           = read_statement self None limit offset order_by direction
           /\ forall (w : world C) (r : ref),
                w_heap w !! r = Some prototype ->
                read_generator self (Some r) limit offset order_by direction w
                = read_generator self None limit offset order_by direction w).
Proof.
  intros cols. split; [|split; [|split; [|split]]].
  - intros n. apply constrained_fields_spec.
  - apply constrained_fields_sublist.
  - rewrite read_statement_spec. unfold select_where, read_args. simpl.
    now rewrite !append_assoc.
  - intros limit offset order_by direction.
    eexists. rewrite !read_statement_spec. unfold select_where, read_args.
    split; rewrite !append_assoc; reflexivity.
  - intros Hall. pose proof (constrained_fields_all_wildcard prototype Hall) as Hnil.
    split; [exact Hnil|].
    intros limit offset order_by direction.
    assert (read_statement self (Some prototype) limit offset order_by direction
            = read_statement self None limit offset order_by direction) as Hst.
    { rewrite !read_statement_spec. unfold select_where, read_args.
      now rewrite Hnil. }
    split; [exact Hst|].
    intros w r Hr.
    now rewrite (read_generator_some self r prototype _ _ _ _ w Hr),
                read_generator_none, Hst.
Qed.

Lemma read_query_construction_witness :
  read_statement widgets (Some red_ones) 0 0 None "ASC"
    = ("SELECT rowid, * FROM widget WHERE color=?;", [VStr "red"])
  /\ read_statement widgets (Some all_any) 0 0 None "ASC"
    = ("SELECT rowid, * FROM widget;", []).
Proof.
  destruct (@read_query_construction table_cursor _ widget_model widgets red_ones)
    as (_ & _ & Hred & _).
  destruct (@read_query_construction table_cursor _ widget_model widgets all_any)
    as (_ & _ & _ & _ & Hall).
  destruct Hall as [_ Hall].
  { intros n Hin Hne. simpl in Hin.
    destruct Hin as [<-|[<-|[<-|[]]]]; [congruence | reflexivity | reflexivity]. }
  split; [exact Hred|].
  destruct (Hall 0 0 None "ASC") as [-> _]. reflexivity.
Defined.

(** C10: a prototype field whose value is the string ['any'] is treated as
    unconstrained whatever the field is meant to hold: it is not among the
    constrained fields, and the statement and its parameters are those of
    the prototype without that field.  Hence no read ever binds the string
    ['any'] as a parameter: no equality predicate can select the rows whose
    stored value is that string. *)
Theorem any_string_is_always_wildcard (self : Crudinator) (prototype : instance)
    (n : string) :
  getattr prototype n = VStr "any" ->
  ~ In n (constrained_fields prototype)
  /\ (forall limit offset order_by direction,
        read_statement self (Some prototype) limit offset order_by direction
        = read_statement self (Some (drop_field prototype n)) limit offset
            order_by direction)
  /\ (forall (p : option instance) limit offset order_by direction,
        ~ In (VStr "any") (snd (read_statement self p limit offset order_by direction))).
Proof.
  intros Hany. split; [|split].
  - intros Hin. apply constrained_fields_spec in Hin as (_ & _ & Hv). congruence.
  - intros limit offset order_by direction.
    rewrite !read_statement_spec. unfold select_where, read_args.
    rewrite (constrained_fields_drop_wildcard prototype n Hany).
    f_equal. symmetry. apply map_ext_in. intros m Hin.
    destruct (String.eqb_spec m n) as [->|Hne].
    + apply constrained_fields_spec in Hin as (_ & _ & Hv). congruence.
    + now rewrite getattr_drop_field.
  - intros p limit offset order_by direction.
    rewrite read_statement_spec. unfold read_args. simpl.
    destruct p as [p|]; [|intros []].
    rewrite in_map_iff. intros (m & Hm & Hin).
    apply constrained_fields_spec in Hin as (_ & _ & Hv). congruence.
Qed.

Lemma any_string_is_always_wildcard_witness :
  read_statement widgets (Some named_any) 0 0 None "ASC"
    = ("SELECT rowid, * FROM widget WHERE color=?;", [VStr "blue"])
  /\ ~ In (VStr "any") (snd (read_statement widgets (Some named_any) 0 0 None "ASC")).
Proof.
  destruct (any_string_is_always_wildcard widgets named_any "name")
    as (_ & Hsame & Hnever); [reflexivity|].
  split.
  - rewrite Hsame. reflexivity.
  - apply Hnever.
Defined.

(** C8: the text of the SELECT after its WHERE part.  ' LIMIT n OFFSET m'
    is appended exactly when the limit is not zero (with a zero limit the
    offset appears nowhere), then ' ORDER BY col dir' is appended exactly
    when an order-by column is given, then the semicolon; the direction's
    default is 'ASC', the limit's is zero and the column's is none. *)
Theorem read_clause_assembly (self : Crudinator) (prototype : option instance)
    (limit offset : Z) (order_by : option string) (direction : string) :
  let base := select_where self prototype in
  let limit_clause :=
    " LIMIT " +:+ str_of_int limit +:+ " OFFSET " +:+ str_of_int offset in
  let sql := fst (read_statement self prototype limit offset order_by direction) in
  (limit = 0 -> order_by_absent order_by -> sql = base +:+ ";")
  /\ (limit <> 0 -> order_by_absent order_by -> sql = base +:+ limit_clause +:+ ";")
  /\ (forall col, limit = 0 -> order_by_given order_by col ->
        sql = base +:+ " ORDER BY " +:+ col +:+ " " +:+ direction +:+ ";")
  /\ (forall col, limit <> 0 -> order_by_given order_by col ->
        sql = base +:+ limit_clause +:+ " ORDER BY " +:+ col +:+ " " +:+ direction +:+ ";")
  /\ default_direction = "ASC"
  /\ default_limit = 0
  /\ default_order_by = None.
Proof.
  intros base limit_clause sql. subst sql. rewrite read_statement_spec.
  fold base. cbn [fst].
  assert (forall col, order_by_given order_by col ->
                      truthy_str order_by = true /\ opt_str order_by = col) as Hgiven.
  { intros col [-> Hne]. destruct col; [congruence | now split]. }
  assert (order_by_absent order_by -> truthy_str order_by = false) as Habsent.
  { intros [-> | ->]; reflexivity. }
  repeat split.
  - intros -> Ho. now rewrite (Habsent Ho).
  - intros Hl Ho. apply Z.eqb_neq in Hl. rewrite Hl, (Habsent Ho).
    subst limit_clause. now rewrite !append_assoc.
  - intros col -> Ho. destruct (Hgiven col Ho) as [-> ->].
    rewrite Z.eqb_refl. now rewrite !append_assoc.
  - intros col Hl Ho. destruct (Hgiven col Ho) as [-> ->].
    apply Z.eqb_neq in Hl. rewrite Hl. subst limit_clause.
    now rewrite !append_assoc.
Qed.

Lemma read_clause_assembly_witness :
  fst (read_statement widgets None 0 7 None default_direction)
    = "SELECT rowid, * FROM widget;"
  /\ fst (read_statement widgets None 5 7 (Some "name") default_direction)
    = "SELECT rowid, * FROM widget LIMIT 5 OFFSET 7 ORDER BY name ASC;".
Proof.
  destruct (read_clause_assembly widgets None 0 7 None default_direction)
    as (H1 & _).
  destruct (read_clause_assembly widgets None 5 7 (Some "name") default_direction)
    as (_ & _ & _ & H4 & _).
  split.
  - rewrite H1; [reflexivity | reflexivity | now left].
  - rewrite (H4 "name"); [reflexivity | discriminate | split; [reflexivity | discriminate]].
Defined.

(** ** The identifier field *)



(** ** Reading by identifier *)

(** C1, as stated, fails: with two saved records, the read whose prototype
    carries the first record's identifier and wildcards elsewhere issues the
    SELECT without a WHERE clause and yields both records, and the one
    whose other fields are at their default binds [None] to both columns
    and yields none. *)
Lemma read_by_rowid_not_the_stored_row :
  w_heap (snd (create_two_then_read 2%nat two_unsaved)) !! 0%nat
    = Some (widget (VInt 1) (VStr "bolt") (VStr "red"))
  /\ fst (create_two_then_read 2%nat two_unsaved)
     = Ok [widget (VInt 1) (VStr "bolt") (VStr "red");
           widget (VInt 2) (VStr "nut") (VStr "blue")]
  /\ fst (create_two_then_read 2%nat two_unsaved)
     <> Ok [widget (VInt 1) (VStr "bolt") (VStr "red")]
  /\ List.last (tc_log (w_cur (snd (create_two_then_read 2%nat two_unsaved)))) ("", [])
     = ("SELECT rowid, * FROM widget;", [])
  /\ fst (create_two_then_read 3%nat two_unsaved) = Ok []
  /\ List.last (tc_log (w_cur (snd (create_two_then_read 3%nat two_unsaved)))) ("", [])
     = ("SELECT rowid, * FROM widget WHERE name=? AND color=?;", [VNone; VNone]).
Proof.
  assert (fst (create_two_then_read 2%nat two_unsaved)
          = Ok [widget (VInt 1) (VStr "bolt") (VStr "red");
                widget (VInt 2) (VStr "nut") (VStr "blue")]) as Hboth
    by (vm_compute; reflexivity).
  split; [vm_compute; reflexivity|].
  split; [exact Hboth|].
  split; [rewrite Hboth; discriminate|].
  repeat split; vm_compute; reflexivity.
Qed.

(** C1, amended: the identifier of a prototype is never used.  Whatever
    [rowid] the prototype carries, the statement and its parameters are the
    same, and so is the whole read; a prototype that carries an identifier
    and wildcards in every other field issues the SELECT without a WHERE
    clause, the same read as without a prototype. *)
Theorem read_ignores_prototype_rowid {C : Type} `{Cursor C} `{RecordModel}
    (self : Crudinator) (prototype : instance) (v : value)
    (limit offset : Z) (order_by : option string) (direction : string) :
  read_statement self (Some (setattr prototype "rowid" v)) limit offset order_by direction
  = read_statement self (Some prototype) limit offset order_by direction
  /\ (forall (w : world C) (r1 r2 : ref),
        w_heap w !! r1 = Some (setattr prototype "rowid" v) ->
        w_heap w !! r2 = Some prototype ->
        read_generator self (Some r1) limit offset order_by direction w
        = read_generator self (Some r2) limit offset order_by direction w)
  /\ ((forall n, In n (field_names prototype) -> n <> "rowid" ->
                 getattr prototype n = VStr "any") ->
      read_statement self (Some (setattr prototype "rowid" v)) default_limit
        default_offset default_order_by direction
      = ("SELECT rowid, * FROM " +:+ table_name self +:+ ";", [])
      /\ forall (w : world C) (r : ref),
           w_heap w !! r = Some (setattr prototype "rowid" v) ->
           read_generator self (Some r) limit offset order_by direction w
           = read_generator self None limit offset order_by direction w).
Proof.
  assert (forall l o ob d,
            read_statement self (Some (setattr prototype "rowid" v)) l o ob d
            = read_statement self (Some prototype) l o ob d) as Hsame.
  { intros l o ob d. rewrite !read_statement_spec. unfold select_where, read_args.
    rewrite constrained_fields_setattr. f_equal.
    apply map_ext_in. intros m Hin.
    apply constrained_fields_spec in Hin as (_ & Hne & _).
    now rewrite getattr_setattr_ne. }
  split; [apply Hsame|]. split.
  - intros w r1 r2 H1 H2.
    now rewrite (read_generator_some self r1 _ _ _ _ _ w H1),
                (read_generator_some self r2 _ _ _ _ _ w H2), Hsame.
  - intros Hall. pose proof (constrained_fields_all_wildcard prototype Hall) as Hnil.
    split.
    + rewrite Hsame, read_statement_spec. unfold select_where, read_args.
      rewrite Hnil. simpl. now rewrite !append_assoc.
    + intros w r Hr.
      rewrite (read_generator_some self r _ _ _ _ _ w Hr), read_generator_none, Hsame.
      rewrite !read_statement_spec. unfold select_where, read_args.
      now rewrite Hnil.
Qed.

Lemma read_ignores_prototype_rowid_witness :
  read_statement widgets (Some (widget (VInt 1) (VStr "any") (VStr "any")))
    0 0 None "ASC"
  = ("SELECT rowid, * FROM widget;", []).
Proof.
  destruct (@read_ignores_prototype_rowid table_cursor _ widget_model widgets
              all_any (VInt 1) 0 0 None "ASC") as (_ & _ & Hall).
  destruct Hall as [Hst _].
  { intros n Hin Hne. simpl in Hin.
    destruct Hin as [<-|[<-|[<-|[]]]]; [congruence | reflexivity | reflexivity]. }
  exact Hst.
Defined.

(** ** Failures of the engine *)

(** C2, as stated, fails: on a closed cursor the operations raise the
    cursor's own [ProgrammingError]; none of them raises a [SchemaError],
    a [WriteError] or a [QueryError]. *)
Lemma engine_error_is_not_wrapped :
  fst (ensure_table widgets None closed_world) = Raise closed_error
  /\ fst (ensure_index widgets "by_name" ["name"] false closed_world) = Raise closed_error
  /\ fst (create widgets 0%nat closed_world) = Raise closed_error
  /\ fst (update widgets 0%nat closed_world) = Raise closed_error
  /\ fst (delete widgets 0%nat closed_world) = Raise closed_error
  /\ fst (@read_generator closed_cursor _ widget_model widgets None 0 0 None "ASC"
            closed_world) = Raise closed_error
  /\ exn_class closed_error <> "SchemaError"
  /\ exn_class closed_error <> "WriteError"
  /\ exn_class closed_error <> "QueryError".
Proof. repeat split; try reflexivity; discriminate. Qed.

(** C2, amended: when the cursor rejects the statement of an operation, the
    operation raises that very exception, unwrapped, and the cursor is left
    in the state the one rejected [execute] put it in: nothing is retried
    and nothing else is asked of the cursor. *)
Theorem engine_failure_propagates_unchanged {C : Type} `{Cursor C} `{RecordModel}
    (self : Crudinator) (w : world C) (e : exn) (c1 : C) :
  (forall pk,
      cur_execute (ensure_table_sql self pk) [] (w_cur w) = (Raise e, c1) ->
      fst (ensure_table self pk w) = Raise e
      /\ w_cur (snd (ensure_table self pk w)) = c1)
  /\ (forall name columns unique,
      cur_execute (ensure_index_sql self name columns unique) [] (w_cur w) = (Raise e, c1) ->
      fst (ensure_index self name columns unique w) = Raise e
      /\ w_cur (snd (ensure_index self name columns unique w)) = c1)
  /\ (forall row r,
      w_heap w !! row = Some r ->
      cur_execute (fst (create_statement self r)) (snd (create_statement self r)) (w_cur w)
      = (Raise e, c1) ->
      fst (create self row w) = Raise e
      /\ w_cur (snd (create self row w)) = c1)
  /\ (forall row r,
      w_heap w !! row = Some r ->
      getattr r "rowid" <> VNone ->
      cur_execute (fst (update_statement self r)) (snd (update_statement self r)) (w_cur w)
      = (Raise e, c1) ->
      fst (update self row w) = Raise e
      /\ w_cur (snd (update self row w)) = c1)
  /\ (forall row r,
      w_heap w !! row = Some r ->
      getattr r "rowid" <> VNone ->
      cur_execute (fst (delete_statement self r)) (snd (delete_statement self r)) (w_cur w)
      = (Raise e, c1) ->
      fst (delete self row w) = Raise e
      /\ w_cur (snd (delete self row w)) = c1)
  /\ (forall limit offset order_by direction,
      let st := read_statement self None limit offset order_by direction in
      cur_execute (fst st) (snd st) (w_cur w) = (Raise e, c1) ->
      fst (read_generator self None limit offset order_by direction w) = Raise e
      /\ w_cur (snd (read_generator self None limit offset order_by direction w)) = c1)
  /\ (forall prototype p limit offset order_by direction,
      w_heap w !! prototype = Some p ->
      let st := read_statement self (Some p) limit offset order_by direction in
      cur_execute (fst st) (snd st) (w_cur w) = (Raise e, c1) ->
      fst (read_generator self (Some prototype) limit offset order_by direction w) = Raise e
      /\ w_cur (snd (read_generator self (Some prototype) limit offset order_by direction w))
         = c1).
Proof.
  repeat apply conj.
  - intros pk He. unfold ensure_table, bind, print, execute; simpl. now rewrite He.
  - intros name columns unique He.
    unfold ensure_index, bind, print, execute; simpl. now rewrite He.
  - intros row r Hr He. rewrite (create_run self row r w Hr). cbv zeta.
    now rewrite He.
  - intros row r Hr Hid He.
    rewrite (update_unfold self row r w Hr), (is_None_false _ Hid).
    unfold execute. now rewrite He.
  - intros row r Hr Hid He.
    rewrite (delete_unfold self row r w Hr), (is_None_false _ Hid).
    unfold execute. now rewrite He.
  - intros limit offset order_by direction st He.
    rewrite read_generator_none, read_with_run. fold st. cbv zeta. now rewrite He.
  - intros prototype p limit offset order_by direction Hp st He.
    rewrite (read_generator_some self prototype p _ _ _ _ w Hp), read_with_run.
    fold st. cbv zeta. now rewrite He.
Qed.

Lemma engine_failure_propagates_unchanged_witness :
  fst (create widgets 0%nat closed_world) = Raise closed_error
  /\ w_cur (snd (create widgets 0%nat closed_world)) = Closed.
Proof.
  destruct (@engine_failure_propagates_unchanged closed_cursor _ widget_model
              widgets closed_world closed_error Closed) as (_ & _ & Hc & _).
  apply (Hc 0%nat (widget (VInt 1) (VStr "bolt") (VStr "red"))); reflexivity.
Defined.

(** ** Construction *)

(** C3, as stated, fails: an object that is no dataclass is refused with a
    [TypeError]; there is no [ConfigurationError]. *)
Lemma init_raises_type_error :
  __init__ a_dict = Raise (TypeError "Did not pass a dataclass to the Crudinator.")
  /\ __init__ a_point
     = Raise (TypeError "Crudinator dataclasses must be a subclass of CrudinatorRow.")
  /\ exn_class (TypeError "Did not pass a dataclass to the Crudinator.")
     <> "ConfigurationError".
Proof. repeat split; try reflexivity; discriminate. Qed.

(** C3, amended: the constructor refuses, with a [TypeError] and at
    construction time, every object that is not a dataclass and every object
    whose class is not a subclass of [CrudinatorRow]; an instance of a
    dataclass that is a subclass of [CrudinatorRow] is accepted and becomes
    the mapper's template.  Nothing else is accepted.  The subclass test is
    on the class objects: an instance of a class that is neither
    [CrudinatorRow] nor a descendant of it is refused whatever the class is
    called. *)
Theorem init_validates_record_model (obj : pyobject) :
  (is_dataclass obj = false ->
     __init__ obj = Raise (TypeError "Did not pass a dataclass to the Crudinator."))
  /\ (is_dataclass obj = true -> issubclass_CrudinatorRow (class_of obj) = false ->
     __init__ obj
     = Raise (TypeError "Crudinator dataclasses must be a subclass of CrudinatorRow."))
  /\ (forall i, obj = ObjInstance i -> issubclass_CrudinatorRow (ob_class i) = true ->
     __init__ obj = Ok (mkCrudinator i))
  /\ (forall self, __init__ obj = Ok self ->
     obj = ObjInstance (dc self)
     /\ issubclass_CrudinatorRow (ob_class (dc self)) = true)
  /\ (forall i, obj = ObjInstance i ->
     cls_id (ob_class i) <> cls_id CrudinatorRow ->
     ~ In (cls_id CrudinatorRow) (cls_ancestors (ob_class i)) ->
     __init__ obj
     = Raise (TypeError "Crudinator dataclasses must be a subclass of CrudinatorRow."))
  /\ (forall i, obj = ObjInstance i ->
     (cls_id (ob_class i) = cls_id CrudinatorRow
      \/ In (cls_id CrudinatorRow) (cls_ancestors (ob_class i))) ->
     __init__ obj = Ok (mkCrudinator i)).
Proof.
  assert (forall c, issubclass_CrudinatorRow c = true
                    <-> cls_id c = cls_id CrudinatorRow
                        \/ In (cls_id CrudinatorRow) (cls_ancestors c)) as Hsub.
  { intros c. unfold issubclass_CrudinatorRow. rewrite existsb_exists. split.
    - intros (x & Hin & Heq). apply Nat.eqb_eq in Heq. subst x.
      destruct Hin as [Hin|Hin]; [left; now symmetry | now right].
    - intros [Heq|Hin]; exists (cls_id CrudinatorRow);
        (split; [|apply Nat.eqb_refl]); [left; now symmetry | now right]. }
  unfold __init__. repeat apply conj.
  - now intros ->.
  - now intros -> ->.
  - intros i -> Hs. simpl. now rewrite Hs.
  - intros self. destruct obj as [i|c|c]; simpl; try discriminate.
    destruct (issubclass_CrudinatorRow (ob_class i)) eqn:E; simpl; [|discriminate].
    now intros [= <-].
  - intros i -> Hne Hnin. simpl.
    destruct (issubclass_CrudinatorRow (ob_class i)) eqn:E; [|reflexivity].
    apply Hsub in E. tauto.
  - intros i -> Hin. simpl. apply Hsub in Hin. now rewrite Hin.
Qed.

Lemma init_validates_record_model_witness :
  __init__ (ObjInstance (widget VNone VNone VNone)) = Ok widgets
  /\ __init__ namesake
     = Raise (TypeError "Crudinator dataclasses must be a subclass of CrudinatorRow.").
Proof.
  destruct (init_validates_record_model (ObjInstance (widget VNone VNone VNone)))
    as (_ & _ & Hok & _).
  destruct (init_validates_record_model namesake) as (_ & _ & _ & _ & Hno & _).
  split.
  - apply (Hok (widget VNone VNone VNone)); reflexivity.
  - eapply Hno; [reflexivity | discriminate | ].
    simpl. intros [Heq|[]]. discriminate Heq.
Defined.

(** * Further properties of the operations *)

(** ** What the operations leave alone *)

Section Frames.
Context {C : Type} `{Cursor C} `{RecordModel}.

Lemma read_with_keeps_heap (self : Crudinator) (st : string * list value) (w : world C) :
  w_heap (snd (read_with self st w)) = w_heap w.
Proof.
  rewrite read_with_run. cbv zeta.
  destruct (cur_execute (fst st) (snd st) (w_cur w)) as [[[]|e] c1]; [|reflexivity].
  now rewrite collect_snd, read_loop_keeps_heap.
Qed.

End Frames.

(** X1: of the six operations only [create] writes to a record.  Whatever
    the cursor and the record model do, and whether the operation returns or
    raises, [ensure_table], [ensure_index], [read_generator], [update] and
    [delete] leave every record of the store as it was (a read prototype is
    never modified), and [create] leaves every record other than the one it
    was handed as it was. *)
Theorem only_create_writes_records {C : Type} `{Cursor C} `{RecordModel}
    (self : Crudinator) (w : world C) :
  (forall pk, w_heap (snd (ensure_table self pk w)) = w_heap w)
  /\ (forall name columns unique,
        w_heap (snd (ensure_index self name columns unique w)) = w_heap w)
  /\ (forall prototype limit offset order_by direction,
        w_heap (snd (read_generator self prototype limit offset order_by direction w))
        = w_heap w)
  /\ (forall row, w_heap (snd (update self row w)) = w_heap w)
  /\ (forall row, w_heap (snd (delete self row w)) = w_heap w)
  /\ (forall row other, other <> row ->
        w_heap (snd (create self row w)) !! other = w_heap w !! other).
Proof.
  repeat apply conj.
  - intros pk. unfold ensure_table, bind, print, execute; simpl.
    now destruct (cur_execute _ _ _).
  - intros name columns unique. unfold ensure_index, bind, print, execute; simpl.
    now destruct (cur_execute _ _ _).
  - intros [r|] limit offset order_by direction.
    + destruct (w_heap w !! r) as [p|] eqn:Hr.
      * rewrite (read_generator_some self r p _ _ _ _ w Hr).
        apply read_with_keeps_heap.
      * unfold read_generator, read_generator_yields, read_start, bind, deref.
        now rewrite Hr.
    + rewrite read_generator_none. apply read_with_keeps_heap.
  - intros row. destruct (w_heap w !! row) as [r|] eqn:Hr.
    + rewrite (update_unfold self row r w Hr).
      destruct (is_None (getattr r "rowid")); [reflexivity|].
      unfold execute. now destruct (cur_execute _ _ _).
    + unfold update, bind, deref. now rewrite Hr.
  - intros row. destruct (w_heap w !! row) as [r|] eqn:Hr.
    + rewrite (delete_unfold self row r w Hr).
      destruct (is_None (getattr r "rowid")); [reflexivity|].
      unfold execute. now destruct (cur_execute _ _ _).
    + unfold delete, bind, deref. now rewrite Hr.
  - intros row other Hne. destruct (w_heap w !! row) as [r|] eqn:Hr.
    + rewrite (create_run self row r w Hr). cbv zeta.
      destruct (cur_execute _ _ _) as [[[]|e] c1]; [|reflexivity].
      destruct (cur_fetchone c1) as [[[d|]|e] c2]; try reflexivity.
      simpl. now rewrite lookup_insert_ne.
    + unfold create, bind, deref. now rewrite Hr.
Qed.

(** ** Delete with an identifier *)

(** X2: for a record whose [rowid] is anything but [None] (zero included),
    [delete] makes one call of [execute], with
    [DELETE FROM <table> WHERE rowid = ?;] and the identifier as the only
    parameter; it prints nothing, its outcome is the cursor's, and nothing
    of the record but its [rowid] enters the statement. *)
Theorem delete_addresses_by_rowid {C : Type} `{Cursor C}
    (self : Crudinator) (row : ref) (r : instance) (w : world C) :
  w_heap w !! row = Some r ->
  getattr r "rowid" <> VNone ->
  let sql := "DELETE FROM " +:+ table_name self +:+ " WHERE rowid = ?;" in
  let args := [getattr r "rowid"] in
  delete self row w
  = (fst (cur_execute sql args (w_cur w)),
     mkWorld (snd (cur_execute sql args (w_cur w))) (w_heap w) (w_out w))
  /\ (forall r', getattr r' "rowid" = getattr r "rowid" ->
                 delete_statement self r' = delete_statement self r).
Proof.
  intros Hr Hid sql args. split.
  - rewrite (delete_unfold self row r w Hr), (is_None_false _ Hid).
    unfold execute, delete_statement; simpl. fold sql args.
    now destruct (cur_execute sql args (w_cur w)).
  - intros r' Hsame. unfold delete_statement. now rewrite Hsame.
Qed.

Lemma delete_addresses_by_rowid_witness :
  tc_rows (w_cur saved_bolt) = [(1, [("name", VStr "bolt"); ("color", VStr "red")])]
  /\ tc_rows (w_cur (snd (delete widgets 0%nat saved_bolt))) = []
  /\ tc_log (w_cur (snd (delete widgets 0%nat saved_bolt)))
     = [("DELETE FROM widget WHERE rowid = ?;", [VInt 1])].
Proof.
  destruct (delete_addresses_by_rowid widgets 0%nat
              (widget (VInt 1) (VStr "bolt") (VStr "blue")) saved_bolt)
    as [Hd _]; [reflexivity | discriminate |].
  rewrite Hd. repeat split.
Defined.

(** ** The schema operations *)

(** X3: [ensure_table] and [ensure_index] each print their statement and
    then make one call of [execute] with it and no parameter; their outcome
    is the cursor's.  The table statement lists the non-identifier fields
    of the template; a primary key that is an empty list is the same as no
    primary key, and a non-empty one adds [, PRIMARY KEY (...)] with the
    given names, which are not compared with the fields.  The index
    statement differs between unique and not unique in the word UNIQUE
    only, and names the same table. *)
Theorem schema_statements {C : Type} `{Cursor C}
    (self : Crudinator) (w : world C) :
  let cols := join ", " (non_identifier_fields (dc self)) in
  ensure_table_sql self (Some []) = ensure_table_sql self None
  /\ (forall p ps,
        ensure_table_sql self (Some (p :: ps))
        = "CREATE TABLE IF NOT EXISTS " +:+ table_name self +:+ "(" +:+ cols
          +:+ ", PRIMARY KEY (" +:+ join ", " (p :: ps) +:+ "));")
  /\ (forall name columns,
        exists rest,
          rest = " IF NOT EXISTS " +:+ name +:+ " ON " +:+ table_name self
                 +:+ " (" +:+ join ", " columns +:+ ");"
          /\ ensure_index_sql self name columns true = "CREATE UNIQUE INDEX" +:+ rest
          /\ ensure_index_sql self name columns false = "CREATE INDEX" +:+ rest)
  /\ (forall pk,
        let sql := ensure_table_sql self pk in
        ensure_table self pk w
        = (fst (cur_execute sql [] (w_cur w)),
           mkWorld (snd (cur_execute sql [] (w_cur w))) (w_heap w)
                   (w_out w ++ [[PStr sql]])))
  /\ (forall name columns unique,
        let sql := ensure_index_sql self name columns unique in
        ensure_index self name columns unique w
        = (fst (cur_execute sql [] (w_cur w)),
           mkWorld (snd (cur_execute sql [] (w_cur w))) (w_heap w)
                   (w_out w ++ [[PStr sql]]))).
Proof.
  intros cols. repeat apply conj.
  - reflexivity.
  - intros p ps. unfold ensure_table_sql. cbn [truthy_list opt_list].
    rewrite ensure_table_columns_spec. subst cols. now rewrite !append_assoc.
  - intros name columns. eexists. split; [reflexivity|]. split; reflexivity.
  - intros pk sql. unfold ensure_table, bind, print, execute; simpl. fold sql.
    now destruct (cur_execute sql [] (w_cur w)) as [[[]|e] c1].
  - intros name columns unique sql.
    unfold ensure_index, bind, print, execute; simpl. fold sql.
    now destruct (cur_execute sql [] (w_cur w)) as [[[]|e] c1].
Qed.

(** ** Placeholders and parameters *)

Lemma count_char_app (c : ascii) (a b : string) :
  count_char c (a +:+ b) = (count_char c a + count_char c b)%nat.
Proof.
  induction a as [|x a IH]; [reflexivity|].
  rewrite append_cons. cbn [count_char]. rewrite IH. lia.
Qed.

Lemma count_char_join (c : ascii) (sep : string) (l : list string) :
  count_char c sep = 0%nat ->
  count_char c (join sep l) = list_sum (map (count_char c) l).
Proof.
  intros Hsep. induction l as [|x l IH]; [reflexivity|].
  destruct l as [|y l].
  - simpl. lia.
  - change (join sep (x :: y :: l)) with (x +:+ sep +:+ join sep (y :: l)).
    rewrite !count_char_app, IH, Hsep. simpl. lia.
Qed.

Lemma count_char_concat (c : ascii) (l : list string) :
  count_char c (concat_str l) = list_sum (map (count_char c) l).
Proof.
  induction l as [|x l IH]; [reflexivity|].
  unfold concat_str in *. cbn [fold_right map list_sum].
  now rewrite count_char_app, IH.
Qed.

Lemma list_sum_const {A} (f : A -> nat) (k : nat) (l : list A) :
  (forall x, In x l -> f x = k) -> list_sum (map f l) = (k * length l)%nat.
Proof.
  intros Hall. induction l as [|x l IH]; simpl; [lia|].
  rewrite Hall by now left. rewrite IH by (intros y Hy; apply Hall; now right). lia.
Qed.

Lemma placeholders_marks (n : nat) :
  placeholders (join ", " (repeat_str "?" n)) = n.
Proof.
  unfold placeholders. rewrite count_char_join by reflexivity.
  rewrite (list_sum_const _ 1%nat).
  - unfold repeat_str. rewrite repeat_length. lia.
  - intros x Hx. apply repeat_spec in Hx. now subst x.
Qed.

Lemma placeholders_uint (d : Decimal.uint) :
  placeholders (NilEmpty.string_of_uint d) = 0%nat.
Proof. induction d; simpl; auto. Qed.

Lemma placeholders_uint_zero (d : Decimal.uint) :
  placeholders (NilZero.string_of_uint d) = 0%nat.
Proof.
  unfold NilZero.string_of_uint.
  destruct d; try reflexivity;
    match goal with
    | |- placeholders (NilEmpty.string_of_uint ?u) = _ => apply (placeholders_uint u)
    end.
Qed.

Lemma placeholders_int (n : Z) : placeholders (str_of_int n) = 0%nat.
Proof.
  unfold str_of_int, NilZero.string_of_int.
  destruct (Z.to_int n) as [d|d].
  - apply placeholders_uint_zero.
  - change (placeholders (String "-" (NilZero.string_of_uint d)))
      with (placeholders (NilZero.string_of_uint d)).
    apply placeholders_uint_zero.
Qed.

Lemma placeholders_where (cols : list string) :
  (forall c, In c cols -> placeholders c = 0%nat) ->
  placeholders (where_clause cols) = length cols.
Proof.
  intros Hall. destruct cols as [|c cols]; [reflexivity|].
  unfold placeholders, where_clause in *.
  rewrite !count_char_app, count_char_concat, map_map.
  rewrite (list_sum_const _ 1%nat).
  - rewrite (Hall c) by now left. simpl. lia.
  - intros x Hx. rewrite !count_char_app, (Hall x) by now right. reflexivity.
Qed.

(** X4: when neither the table name nor a field name contains a question
    mark, the text of every statement that [create], [update], [delete] and
    [read_generator] build has exactly as many [?] as the statement has
    bound parameters (for a read, when the order-by column and the direction
    contain none either): no statement is handed to the cursor with too few
    or too many bindings. *)
Theorem placeholders_match_parameters (self : Crudinator) (row : instance) :
  placeholders (table_name self) = 0%nat ->
  (forall n, In n (field_names row) -> placeholders n = 0%nat) ->
  placeholders (fst (create_statement self row))
    = length (snd (create_statement self row))
  /\ placeholders (fst (update_statement self row))
    = length (snd (update_statement self row))
  /\ placeholders (fst (delete_statement self row))
    = length (snd (delete_statement self row))
  /\ (forall limit offset order_by direction,
        placeholders (opt_str order_by) = 0%nat ->
        placeholders direction = 0%nat ->
        placeholders (fst (read_statement self (Some row) limit offset order_by direction))
        = length (snd (read_statement self (Some row) limit offset order_by direction))
        /\ placeholders (fst (read_statement self None limit offset order_by direction))
           = length (snd (read_statement self None limit offset order_by direction))).
Proof.
  intros Ht Hn.
  assert (forall n, In n (non_identifier_fields row) -> placeholders n = 0%nat) as Hcols.
  { intros n Hin. apply Hn. now apply non_identifier_fields_spec in Hin. }
  repeat apply conj.
  - unfold create_statement. rewrite create_columns_values_spec. cbn [fst snd].
    rewrite !length_map. unfold placeholders in *.
    rewrite !count_char_app, Ht.
    rewrite (count_char_join _ ", " (non_identifier_fields row)) by reflexivity.
    rewrite (list_sum_const _ 0%nat _ Hcols).
    pose proof (placeholders_marks (length (non_identifier_fields row))) as Hm.
    unfold placeholders in Hm. rewrite Hm. simpl. lia.
  - unfold update_statement. rewrite update_expressions_args_spec. cbn [fst snd].
    rewrite length_app, !length_map. unfold placeholders in *.
    rewrite !count_char_app, Ht, count_char_join by reflexivity.
    rewrite map_map, (list_sum_const _ 1%nat).
    + simpl. lia.
    + intros n Hin. rewrite count_char_app, (Hcols n Hin). reflexivity.
  - unfold delete_statement. cbn [fst snd length]. unfold placeholders in *.
    rewrite !count_char_app, Ht. reflexivity.
  - intros limit offset order_by direction Ho Hd.
    assert (forall p : option instance,
              placeholders (select_where self p) = length (read_args p)
              -> placeholders (fst (read_statement self p limit offset order_by direction))
                 = length (snd (read_statement self p limit offset order_by direction)))
      as Htail.
    { intros p Hp. rewrite read_statement_spec. cbn [fst snd].
      unfold placeholders in *. rewrite !count_char_app, Hp.
      pose proof (placeholders_int limit) as Hl.
      pose proof (placeholders_int offset) as Hf. unfold placeholders in Hl, Hf.
      destruct (Z.eqb limit 0), (truthy_str order_by);
        rewrite ?count_char_app, ?Hl, ?Hf, ?Ho, ?Hd; simpl; lia. }
    split; apply Htail; unfold select_where, read_args, placeholders in *;
      rewrite !count_char_app, Ht.
    + rewrite length_map.
      pose proof (placeholders_where (constrained_fields row)) as Hw.
      unfold placeholders in Hw. rewrite Hw; [simpl; lia|].
      intros c Hc. apply Hn. now apply constrained_fields_spec in Hc.
    + reflexivity.
Qed.

Lemma placeholders_match_parameters_witness :
  placeholders (fst (update_statement widgets (widget (VInt 1) (VStr "bolt") (VStr "red"))))
  = 3%nat.
Proof.
  destruct (placeholders_match_parameters widgets
              (widget (VInt 1) (VStr "bolt") (VStr "red")))
    as (_ & Hu & _).
  - reflexivity.
  - intros n Hin. simpl in Hin. destruct Hin as [<-|[<-|[<-|[]]]]; reflexivity.
  - rewrite Hu. reflexivity.
Defined.

(** ** Values stay out of the statement text *)

(** X5: the values of a record never reach the text of a statement.  Two
    records with the same field names give the same INSERT and UPDATE text
    and, as templates of classes with the same name, the same CREATE TABLE
    text; two prototypes with the same field names and the sentinel in the
    same fields give the same SELECT text.  The values travel as bound
    parameters only. *)
Theorem statement_text_ignores_values (self : Crudinator) (r1 r2 : instance) :
  field_names r1 = field_names r2 ->
  fst (create_statement self r1) = fst (create_statement self r2)
  /\ fst (update_statement self r1) = fst (update_statement self r2)
  /\ fst (delete_statement self r1) = fst (delete_statement self r2)
  /\ (cls_name (ob_class r1) = cls_name (ob_class r2) ->
      forall pk, ensure_table_sql (mkCrudinator r1) pk
                 = ensure_table_sql (mkCrudinator r2) pk)
  /\ ((forall n, is_wildcard (getattr r1 n) = is_wildcard (getattr r2 n)) ->
      forall limit offset order_by direction,
        fst (read_statement self (Some r1) limit offset order_by direction)
        = fst (read_statement self (Some r2) limit offset order_by direction)).
Proof.
  intros Hnames.
  assert (non_identifier_fields r1 = non_identifier_fields r2) as Hcols
    by (unfold non_identifier_fields; now rewrite Hnames).
  repeat apply conj.
  - unfold create_statement. rewrite !create_columns_values_spec. cbn [fst].
    now rewrite !length_map, Hcols.
  - unfold update_statement. rewrite !update_expressions_args_spec. cbn [fst].
    now rewrite Hcols.
  - reflexivity.
  - intros Hcls pk. unfold ensure_table_sql, table_name. cbn [dc].
    now rewrite !ensure_table_columns_spec, Hcols, Hcls.
  - intros Hw limit offset order_by direction.
    rewrite !read_statement_spec. cbn [fst]. unfold select_where.
    assert (constrained_fields r1 = constrained_fields r2) as ->; [|reflexivity].
    unfold constrained_fields. rewrite Hcols.
    apply filter_ext. intros n. now rewrite Hw.
Qed.

Lemma statement_text_ignores_values_witness :
  fst (create_statement widgets (widget VNone (VStr "x'); DROP TABLE widget;--") VNone))
  = "INSERT INTO widget (name, color) VALUES (?, ?) RETURNING rowid;".
Proof.
  destruct (statement_text_ignores_values widgets
              (widget VNone (VStr "x'); DROP TABLE widget;--") VNone)
              (widget VNone VNone VNone)) as (Hc & _); [reflexivity|].
  rewrite Hc. reflexivity.
Defined.

(** ** Create: what comes back, and what is sent *)

Lemma create_columns_values_setattr (r : instance) (v : value) :
  create_columns_values (setattr r "rowid" v) = create_columns_values r.
Proof.
  rewrite !create_columns_values_spec, non_identifier_fields_setattr.
  f_equal. apply map_ext_in. intros n Hin.
  apply non_identifier_fields_spec in Hin as [_ Hne].
  now rewrite getattr_setattr_ne.
Qed.

Lemma create_statement_setattr (self : Crudinator) (r : instance) (v : value) :
  create_statement self (setattr r "rowid" v) = create_statement self r.
Proof. unfold create_statement. now rewrite create_columns_values_setattr. Qed.

(** X6: two ways a [create] whose INSERT was accepted can still go wrong.
    When the cursor has no row to hand back, [create] raises an
    [AttributeError] after the INSERT was executed, and the record is
    unchanged.  When the row handed back has no [rowid] key, [create]
    returns normally and the record's [rowid] is [None], whatever it was
    before; an [update] of that record is then a no-op. *)
Theorem create_without_identifier {C : Type} `{Cursor C}
    (self : Crudinator) (row : ref) (r : instance) (w : world C) (c1 : C) :
  w_heap w !! row = Some r ->
  cur_execute (fst (create_statement self r)) (snd (create_statement self r)) (w_cur w)
    = (Ok tt, c1) ->
  (forall c2,
      cur_fetchone c1 = (Ok None, c2) ->
      fst (create self row w)
        = Raise (AttributeError "'NoneType' object has no attribute 'get'")
      /\ w_cur (snd (create self row w)) = c2
      /\ w_heap (snd (create self row w)) = w_heap w)
  /\ (forall d c2,
      cur_fetchone c1 = (Ok (Some d), c2) ->
      d !! "rowid" = None ->
      fst (create self row w) = Ok tt
      /\ w_heap (snd (create self row w)) !! row = Some (setattr r "rowid" VNone)
      /\ fst (update self row (snd (create self row w))) = Ok tt
      /\ w_cur (snd (update self row (snd (create self row w)))) = c2).
Proof.
  intros Hr He. pose proof (create_run self row r w Hr) as Hrun.
  cbv zeta in Hrun. rewrite He in Hrun. split.
  - intros c2 Hf. rewrite Hrun, Hf. repeat split.
  - intros d c2 Hf Hd. rewrite Hf in Hrun.
    assert (dict_get d "rowid" = VNone) as Hget by (unfold dict_get; now rewrite Hd).
    rewrite Hget in Hrun. rewrite Hrun. cbn [fst snd w_heap].
    split; [reflexivity|]. split; [apply lookup_insert_eq|].
    match goal with
    | |- context [update self row ?w1] =>
        destruct (update_delete_unset_rowid_noop self row (setattr r "rowid" VNone) w1)
          as [Hu _]
    end.
    + apply lookup_insert_eq.
    + apply getattr_setattr_eq.
    + rewrite Hu. split; reflexivity.
Qed.

Lemma create_without_identifier_witness :
  fst (create widgets 0%nat no_row_world)
    = Raise (AttributeError "'NoneType' object has no attribute 'get'")
  /\ w_heap (snd (create widgets 0%nat no_key_world)) !! 0%nat
     = Some (widget VNone (VStr "bolt") (VStr "red")).
Proof.
  destruct (create_without_identifier widgets 0%nat
              (widget (VInt 7) (VStr "bolt") (VStr "red")) no_row_world
              (mkScripted [None]
                 [("INSERT INTO widget (name, color) VALUES (?, ?) RETURNING rowid;",
                   [VStr "bolt"; VStr "red"])]))
    as (Hnone & _); [reflexivity | reflexivity |].
  destruct (create_without_identifier widgets 0%nat
              (widget (VInt 7) (VStr "bolt") (VStr "red")) no_key_world
              (mkScripted [Some {[ "id" := VInt 1 ]}]
                 [("INSERT INTO widget (name, color) VALUES (?, ?) RETURNING rowid;",
                   [VStr "bolt"; VStr "red"])]))
    as (_ & Hkey); [reflexivity | reflexivity |].
  split.
  - apply (Hnone (mkScripted []
                    [("INSERT INTO widget (name, color) VALUES (?, ?) RETURNING rowid;",
                      [VStr "bolt"; VStr "red"])])).
    reflexivity.
  - apply (Hkey {[ "id" := VInt 1 ]}
                (mkScripted []
                   [("INSERT INTO widget (name, color) VALUES (?, ?) RETURNING rowid;",
                     [VStr "bolt"; VStr "red"])])); reflexivity.
Defined.

(** X7: [create] never looks at the record's current identifier.  The
    statement and its parameters are the same whatever [rowid] the record
    carries, so a record that was created once and is handed to [create]
    again is inserted again with the same statement and values, and its
    [rowid] is overwritten. *)
Theorem create_ignores_current_rowid {C : Type} `{Cursor C}
    (self : Crudinator) (row : ref) (r : instance) (w : world C) :
  (forall v, create_statement self (setattr r "rowid" v) = create_statement self r)
  /\ (w_heap w !! row = Some r ->
      fst (create self row w) = Ok tt ->
      exists r1,
        w_heap (snd (create self row w)) !! row = Some r1
        /\ create_statement self r1 = create_statement self r
        /\ forall n, n <> "rowid" -> getattr r1 n = getattr r n).
Proof.
  split; [intros v; apply create_statement_setattr|].
  intros Hr Hok. rewrite (create_run self row r w Hr) in Hok |- *. cbv zeta in Hok |- *.
  destruct (cur_execute _ _ (w_cur w)) as [[[]|e] c1]; [|discriminate].
  destruct (cur_fetchone c1) as [[[d|]|e] c2]; try discriminate.
  exists (setattr r "rowid" (dict_get d "rowid")). cbn [snd w_heap].
  split; [apply lookup_insert_eq|]. split; [apply create_statement_setattr|].
  intros n Hne. now apply getattr_setattr_ne.
Qed.

Lemma create_ignores_current_rowid_witness :
  (exists r1,
      w_heap (snd (create widgets 0%nat unsaved_bolt)) !! 0%nat = Some r1
      /\ create_statement widgets r1
         = ("INSERT INTO widget (name, color) VALUES (?, ?) RETURNING rowid;",
            [VStr "bolt"; VStr "red"]))
  /\ tc_log (w_cur (snd (create widgets 0%nat (snd (create widgets 0%nat unsaved_bolt)))))
     = [("INSERT INTO widget (name, color) VALUES (?, ?) RETURNING rowid;",
         [VStr "bolt"; VStr "red"]);
        ("INSERT INTO widget (name, color) VALUES (?, ?) RETURNING rowid;",
         [VStr "bolt"; VStr "red"])]
  /\ w_heap (snd (create widgets 0%nat (snd (create widgets 0%nat unsaved_bolt)))) !! 0%nat
     = Some (widget (VInt 2) (VStr "bolt") (VStr "red")).
Proof.
  destruct (create_ignores_current_rowid widgets 0%nat
              (widget VNone (VStr "bolt") (VStr "red")) unsaved_bolt) as [_ Hagain].
  destruct Hagain as (r1 & H1 & H2 & _); [reflexivity | reflexivity |].
  split.
  - exists r1. split; [exact H1|]. rewrite H2. reflexivity.
  - split; vm_compute; reflexivity.
Defined.

(** ** Create, then update or delete *)

(** X8: after a [create] that stored an identifier other than [None], an
    [update] of the same record is not skipped: it executes the UPDATE of
    the record's class with the parameters of the INSERT followed by the
    new identifier; and a [delete] executes the DELETE with the new
    identifier. *)
Theorem update_delete_after_create {C : Type} `{Cursor C}
    (self : Crudinator) (row : ref) (r : instance) (w : world C)
    (c1 c2 : C) (d : gmap string value) :
  w_heap w !! row = Some r ->
  cur_execute (fst (create_statement self r)) (snd (create_statement self r)) (w_cur w)
    = (Ok tt, c1) ->
  cur_fetchone c1 = (Ok (Some d), c2) ->
  dict_get d "rowid" <> VNone ->
  let w1 := snd (create self row w) in
  let id := dict_get d "rowid" in
  let usql := fst (update_statement self r) in
  let uargs := snd (create_statement self r) ++ [id] in
  let dsql := "DELETE FROM " +:+ table_name self +:+ " WHERE rowid = ?;" in
  w_cur w1 = c2
  /\ update self row w1
     = (fst (cur_execute usql uargs c2),
        mkWorld (snd (cur_execute usql uargs c2)) (w_heap w1) (w_out w1))
  /\ delete self row w1
     = (fst (cur_execute dsql [id] c2),
        mkWorld (snd (cur_execute dsql [id] c2)) (w_heap w1) (w_out w1)).
Proof.
  intros Hr He Hf Hid w1 id usql uargs dsql.
  remember (dict_get d "rowid") as i eqn:Hi. subst id.
  assert (w_cur w1 = c2 /\ w_heap w1 !! row = Some (setattr r "rowid" i)) as [Hc Hr1].
  { subst w1. rewrite (create_run self row r w Hr). cbv zeta. rewrite He, Hf.
    cbn [snd w_cur w_heap]. rewrite <- Hi.
    split; [reflexivity | apply lookup_insert_eq]. }
  assert (getattr (setattr r "rowid" i) "rowid" = i) as Hget
    by apply getattr_setattr_eq.
  split; [exact Hc|]. split.
  - rewrite (update_unfold self row _ w1 Hr1), Hget, (is_None_false _ Hid).
    assert (update_statement self (setattr r "rowid" i) = (usql, uargs)) as ->.
    { subst usql uargs. unfold update_statement, create_statement.
      rewrite !update_expressions_args_spec, create_columns_values_spec.
      rewrite non_identifier_fields_setattr, Hget. cbn [fst snd]. do 2 f_equal.
      apply map_ext_in. intros n Hin.
      apply non_identifier_fields_spec in Hin as [_ Hne].
      now rewrite getattr_setattr_ne. }
    unfold execute. cbn [fst snd]. rewrite Hc.
    now destruct (cur_execute usql uargs c2).
  - rewrite (delete_unfold self row _ w1 Hr1), Hget, (is_None_false _ Hid).
    unfold execute, delete_statement. cbn [fst snd]. rewrite Hget, Hc. fold dsql.
    now destruct (cur_execute dsql [i] c2).
Qed.

Lemma update_delete_after_create_witness :
  tc_log (w_cur (snd (update widgets 0%nat (snd (create widgets 0%nat unsaved_bolt)))))
  = [("INSERT INTO widget (name, color) VALUES (?, ?) RETURNING rowid;",
      [VStr "bolt"; VStr "red"]);
     ("UPDATE widget SET name=?,color=? WHERE rowid = ?;",
      [VStr "bolt"; VStr "red"; VInt 1])].
Proof.
  destruct (update_delete_after_create widgets 0%nat
              (widget VNone (VStr "bolt") (VStr "red")) unsaved_bolt
              (snd (table_execute
                      "INSERT INTO widget (name, color) VALUES (?, ?) RETURNING rowid;"
                      [VStr "bolt"; VStr "red"] empty_widget_table))
              (mkTable "widget" ["name"; "color"]
                 [(1, [("name", VStr "bolt"); ("color", VStr "red")])] 2 []
                 [("INSERT INTO widget (name, color) VALUES (?, ?) RETURNING rowid;",
                   [VStr "bolt"; VStr "red"])])
              {["rowid" := VInt 1]})
    as (_ & Hu & _); [reflexivity | reflexivity | reflexivity | discriminate |].
  rewrite Hu. reflexivity.
Defined.

(** ** Records without columns *)

(** X9: a record whose only field is [rowid] (an instance of the base class
    itself is one, and the constructor accepts it as a template) gives
    statements with empty lists: CREATE TABLE with no column, INSERT with
    no column and no value, UPDATE with an empty SET clause and the
    identifier as the only parameter, and, as a prototype, a SELECT without
    a WHERE clause. *)
Theorem statements_without_columns (self : Crudinator) (row : instance) :
  non_identifier_fields row = [] ->
  create_statement self row
    = ("INSERT INTO " +:+ table_name self +:+ " () VALUES () RETURNING rowid;", [])
  /\ update_statement self row
     = ("UPDATE " +:+ table_name self +:+ " SET  WHERE rowid = ?;",
        [getattr row "rowid"])
  /\ ensure_table_sql (mkCrudinator row) None
     = "CREATE TABLE IF NOT EXISTS " +:+ lower (cls_name (ob_class row)) +:+ "();"
  /\ read_statement self (Some row) default_limit default_offset default_order_by
       default_direction
     = ("SELECT rowid, * FROM " +:+ table_name self +:+ ";", []).
Proof.
  intros Hnone. repeat apply conj.
  - unfold create_statement. rewrite create_columns_values_spec, Hnone.
    cbn [map length repeat_str repeat join]. rewrite ?append_assoc; reflexivity.
  - unfold update_statement. rewrite update_expressions_args_spec, Hnone.
    cbn [map join app]. rewrite ?append_assoc; reflexivity.
  - unfold ensure_table_sql, table_name. cbn [dc truthy_list].
    rewrite ensure_table_columns_spec, Hnone. cbn [join].
    rewrite ?append_assoc; reflexivity.
  - rewrite read_statement_spec. unfold select_where, read_args, constrained_fields.
    rewrite Hnone. cbn. rewrite ?append_assoc; reflexivity.
Qed.

Lemma statements_without_columns_witness :
  __init__ (ObjInstance (bare_row VNone)) = Ok (mkCrudinator (bare_row VNone))
  /\ ensure_table_sql (mkCrudinator (bare_row VNone)) None
     = "CREATE TABLE IF NOT EXISTS crudinatorrow();"
  /\ create_statement (mkCrudinator (bare_row VNone)) (bare_row VNone)
     = ("INSERT INTO crudinatorrow () VALUES () RETURNING rowid;", []).
Proof.
  destruct (statements_without_columns (mkCrudinator (bare_row VNone)) (bare_row VNone))
    as (Hc & _ & Ht & _); [reflexivity|].
  split; [reflexivity|]. split.
  - rewrite Ht. reflexivity.
  - rewrite Hc. reflexivity.
Defined.

(** ** What a read yields *)

(** X10: what a read yields once its statement was accepted, row by row.
    When the constructor of the bound class succeeds and every delivered row
    can be loaded, the generator yields one record per row, in the order of
    the rows, each loaded from its row, and ends as the cursor's iteration
    ends, with the cursor in the state the iteration ended in.  When a row
    cannot be loaded, the records of the rows before it have been yielded,
    the generator ends with that exception, and the cursor is in the state
    it had on delivering that row: the rows after it are not fetched.  When
    the constructor raises, nothing is yielded and the generator ends with
    that exception on the first row.  With no row delivered nothing is
    yielded and the record model is not called. *)
Theorem read_yields_one_record_per_row {C : Type} `{Cursor C} `{RecordModel}
    (self : Crudinator) (prototype : option ref) (p : option instance)
    (limit offset : Z) (order_by : option string) (direction : string)
    (w : world C) (c1 : C) :
  resolves w prototype p ->
  let st := read_statement self p limit offset order_by direction in
  let out1 := w_out w ++ [[PStr (fst st); PArgs (snd st)]] in
  let rows := fst (cur_rows c1) in
  let ending := snd (cur_rows c1) in
  let result := read_generator_yields self prototype limit offset order_by direction w in
  cur_execute (fst st) (snd st) (w_cur w) = (Ok tt, c1) ->
  (forall i0 recs,
      construct (ob_class (dc self)) = Ok i0 ->
      Forall2 (fun rc rec => parse_from_dict i0 (fst rc) = Ok rec) rows recs ->
      result = ((recs, fst ending), mkWorld (snd ending) (w_heap w) out1)
      /\ length recs = length rows)
  /\ (forall i0 pre row c post recs e,
      rows = pre ++ (row, c) :: post ->
      construct (ob_class (dc self)) = Ok i0 ->
      Forall2 (fun rc rec => parse_from_dict i0 (fst rc) = Ok rec) pre recs ->
      parse_from_dict i0 row = Raise e ->
      result = ((recs, Raise e), mkWorld c (w_heap w) out1))
  /\ (forall row c post e,
      rows = (row, c) :: post ->
      construct (ob_class (dc self)) = Raise e ->
      result = (([], Raise e), mkWorld c (w_heap w) out1))
  /\ (rows = [] ->
      result = (([], fst ending), mkWorld (snd ending) (w_heap w) out1)).
Proof.
  intros Hres st out1 rows ending result He.
  assert (result = read_loop self rows ending [] (mkWorld c1 (w_heap w) out1)) as ->.
  { subst result.
    rewrite (read_generator_yields_resolved self prototype p _ _ _ _ w Hres).
    unfold yields_with. fold st. cbv zeta. now rewrite He. }
  repeat apply conj.
  - intros i0 recs Hc Hall. split.
    + now rewrite (read_loop_all_load self i0 _ _ recs [] _ Hc Hall).
    + symmetry. eapply Forall2_length; eassumption.
  - intros i0 pre row c post recs e -> Hc Hall Hrow.
    now rewrite (read_loop_row_fails self i0 pre post row c _ recs [] e _ Hc Hall Hrow).
  - intros row c post e -> Hc.
    now rewrite (read_loop_constructor_fails self post row c _ [] e _ Hc).
  - now intros ->.
Qed.

Lemma read_yields_one_record_per_row_witness :
  fst (@read_generator_yields table_cursor _ failing_model widgets None 0 0 None "ASC"
         two_rows_world)
  = ([], Raise (TypeError "missing 1 required positional argument"))
  /\ length (tc_result
               (w_cur (snd (@read_generator_yields table_cursor _ failing_model widgets
                              None 0 0 None "ASC" two_rows_world))))
     = 1%nat.
Proof.
  destruct (@read_yields_one_record_per_row table_cursor _ failing_model widgets
              None None 0 0 None "ASC" two_rows_world
              (snd (table_execute "SELECT rowid, * FROM widget;" []
                      (w_cur two_rows_world))))
    as (_ & _ & Hfail & _); [reflexivity | reflexivity |].
  cbv zeta in Hfail.
  specialize (Hfail _ _ _ (TypeError "missing 1 required positional argument")
                eq_refl eq_refl).
  rewrite Hfail. split; reflexivity.
Defined.

(** ** Reading back what was created *)

(** X11: a prototype none of whose fields holds the sentinel constrains
    every non-identifier field, and the parameters of its SELECT are the
    parameters of the INSERT that [create] builds for the same record, in
    the same order, whatever identifier the record has received in
    between: reading with the created record as prototype looks for exactly
    the values that were inserted. *)
Theorem unwildcarded_prototype_binds_inserted_values (self : Crudinator)
    (p : instance) :
  (forall n, In n (non_identifier_fields p) -> getattr p n <> VStr "any") ->
  constrained_fields p = non_identifier_fields p
  /\ forall v limit offset order_by direction,
       snd (read_statement self (Some (setattr p "rowid" v)) limit offset order_by
              direction)
       = snd (create_statement self p)
       /\ length (snd (create_statement self p)) = length (non_identifier_fields p).
Proof.
  intros Hno.
  assert (constrained_fields p = non_identifier_fields p) as Hall.
  { unfold constrained_fields.
    assert (forall l, (forall n, In n l -> getattr p n <> VStr "any") ->
                      List.filter (fun n => negb (is_wildcard (getattr p n))) l = l)
      as Hfilter.
    { induction l as [|x l IH]; intros Hl; simpl; [reflexivity|].
      destruct (is_wildcard (getattr p x)) eqn:E.
      - apply is_wildcard_spec in E. now apply Hl in E; [|left].
      - simpl. f_equal. apply IH. intros n Hn. apply Hl. now right. }
    now apply Hfilter. }
  split; [exact Hall|].
  intros v limit offset order_by direction.
  rewrite read_statement_spec. unfold read_args, create_statement.
  rewrite create_columns_values_spec, constrained_fields_setattr, Hall.
  cbn [snd]. split; [|apply length_map].
  apply map_ext_in. intros n Hin.
  apply non_identifier_fields_spec in Hin as [_ Hne].
  now rewrite getattr_setattr_ne.
Qed.

Lemma unwildcarded_prototype_binds_inserted_values_witness :
  snd (read_statement widgets (Some (widget (VInt 1) (VStr "bolt") VNone)) 0 0 None "ASC")
  = [VStr "bolt"; VNone].
Proof.
  destruct (unwildcarded_prototype_binds_inserted_values widgets
              (widget VNone (VStr "bolt") VNone)) as [_ Hsame].
  - intros n Hin. simpl in Hin. destruct Hin as [<-|[<-|[]]]; discriminate.
  - destruct (Hsame (VInt 1) 0 0 None "ASC") as [Hargs _].
    change (widget (VInt 1) (VStr "bolt") VNone)
      with (setattr (widget VNone (VStr "bolt") VNone) "rowid" (VInt 1)).
    rewrite Hargs. reflexivity.
Defined.
